(** * TerminalLinux: the simulated file system and its command interpreter

    A shallow embedding of [src/lib/terminalStorage.ts] and
    [src/lib/commandProcessor.ts], with the Enter handler of
    [src/components/Terminal.tsx].

    Conventions of the embedding.
    - JavaScript strings are [string]s of ASCII characters; indices are [Z],
      with [-1] for "not found" as [indexOf] and [lastIndexOf] return it.
    - A JavaScript object used as a dictionary ([children], [users]) is a
      [gmap string _]; only own properties are modelled.  The code's
      [obj[name]] also finds the members that every object inherits from
      [Object.prototype] ([prototypeNames] below), and its assignment to
      the name [__proto__] sets the prototype and makes no entry.  The
      embedding agrees with the code wherever a name that is looked up and
      is no own property is none of these names, and no assignment is to
      [__proto__]; a statement about a name or path that the embedding
      finds missing carries that as a hypothesis ([inherited],
      [endsInherited], [hasInherited]).  [Object.prototype] is taken to
      have its standard members only, and a store to have no own property
      named [__proto__]: the program never writes one, as its assignments
      to that name make no entry and [JSON.stringify] emits own properties
      only.
    - An optional field ([content?], [children?]) is an [option].
    - The tree holds no shared sub-objects (it comes from [JSON.parse], from
      the literal [defaultFileSystem], or from [cloneNode]), so a write
      through the reference returned by [getNode] is the functional update
      of the tree along the path that [getNode] walked.
    - [Date.now()] is the argument [now] of the operation that reads it: one
      call of an operation sees one instant.
    - [localStorage] holds at most one snapshot, kept decoded:
      [JSON.parse (JSON.stringify fs)] is an equal, fresh object. *)

From stdpp Require Import gmap strings list fin_maps.
From Stdlib Require Import Ascii ZArith Lia.

Local Open Scope Z_scope.

(** ** JavaScript string primitives *)

Module Js.

Definition slash : ascii := "/"%char.
Definition nl : string := String "010"%char "".
Definition dquote : string := String "034"%char "".

Definition eqb_char (a b : ascii) : bool := bool_decide (a = b).
Definition eqb_str (a b : string) : bool := bool_decide (a = b).

(** [s.length] *)
Fixpoint strlen (s : string) : Z :=
  match s with
  | "" => 0
  | String _ r => 1 + strlen r
  end.

(** [s.startsWith(p)] *)
Fixpoint startsWith (p s : string) : bool :=
  match p, s with
  | "", _ => true
  | String a p', String b s' => eqb_char a b && startsWith p' s'
  | String _ _, "" => false
  end.

(** [s.includes(c)] for a one-character needle *)
Fixpoint includes (c : ascii) (s : string) : bool :=
  match s with
  | "" => false
  | String a r => eqb_char a c || includes c r
  end.

(** [s.indexOf(c)] *)
Fixpoint indexOf (c : ascii) (s : string) : Z :=
  match s with
  | "" => -1
  | String a r =>
      if eqb_char a c then 0
      else let i := indexOf c r in if i <? 0 then -1 else 1 + i
  end.

(** [s.lastIndexOf(c)] *)
Fixpoint lastIndexOf (c : ascii) (s : string) : Z :=
  match s with
  | "" => -1
  | String a r =>
      let i := lastIndexOf c r in
      if 0 <=? i then 1 + i else if eqb_char a c then 0 else -1
  end.

Fixpoint drop (n : nat) (s : string) : string :=
  match n, s with
  | O, _ => s
  | S n', String _ r => drop n' r
  | S _, "" => ""
  end.

Fixpoint take (n : nat) (s : string) : string :=
  match n, s with
  | O, _ => ""
  | S n', String a r => String a (take n' r)
  | S _, "" => ""
  end.

(** [s.substring(a, b)]: negative indices count as 0 and the two ends are
    swapped when [a > b]. *)
Definition substring (a b : Z) (s : string) : string :=
  let lo := Z.to_nat (Z.min a b) in
  let hi := Z.to_nat (Z.max a b) in
  take (hi - lo) (drop lo s).

(** [s.substring(a)], also [s.slice(a)] for [0 <= a] *)
Definition substringFrom (a : Z) (s : string) : string := drop (Z.to_nat a) s.

(** [s.split(c)] *)
Fixpoint split (c : ascii) (s : string) : list string :=
  match s with
  | "" => [""]
  | String a r =>
      if eqb_char a c then "" :: split c r
      else match split c r with
           | h :: t => String a h :: t
           | [] => [String a ""]
           end
  end.

(** [Boolean(s)] for a string: the empty string is the only falsy one. *)
Definition truthy (s : string) : bool := negb (eqb_str s "").

(** [l.join(sep)] *)
Fixpoint join (sep : string) (l : list string) : string :=
  match l with
  | [] => ""
  | [x] => x
  | x :: r => x +:+ sep +:+ join sep r
  end.

(** [s.trim()] *)
Fixpoint trimStart (s : string) : string :=
  match s with
  | "" => ""
  | String a r => if Ascii.is_space a then trimStart r else s
  end.

Definition trim (s : string) : string :=
  String.rev (trimStart (String.rev (trimStart s))).

(** [s.trim().split(/\s+/)]: the maximal runs of non-space characters, and
    the one empty token for a blank line. *)
Definition splitWhitespace (s : string) : list string :=
  match String.words s with
  | [] => [""]
  | l => l
  end.

(** [s.toLowerCase()] on ASCII. *)
Definition lowerChar (a : ascii) : ascii :=
  let n := nat_of_ascii a in
  if ((65 <=? n) && (n <=? 90))%nat then ascii_of_nat (n + 32) else a.

Fixpoint toLowerCase (s : string) : string :=
  match s with
  | "" => ""
  | String a r => String (lowerChar a) (toLowerCase r)
  end.

(** [l[i]] for a numeric index: [undefined] outside the array. *)
Definition at_ {A} (l : list A) (i : Z) : option A :=
  if i <? 0 then None else l !! Z.to_nat i.

(** [l.slice(1)] *)
Definition slice1 {A} (l : list A) : list A := tail l.

End Js.

(** ** The data model of [terminalStorage.ts] *)

Inductive NodeType := file | directory.

Local Set Warnings "-register-all".

Global Instance NodeType_eq_dec : EqDecision NodeType.
Proof. solve_decision. Defined.

Inductive FileSystemNode := mkNode {
  type : NodeType;
  content : option string;
  children : option (gmap string FileSystemNode);
  owner : string;
  permissions : string;
  created : Z;
  modified : Z
}.

Record User := mkUser {
  password : string;
  isAdmin : bool;
  homeDir : string
}.

Record FileSystem := mkFileSystem {
  root : FileSystemNode;
  currentUser : string;
  users : gmap string User
}.

Definition setContent (c : option string) (n : FileSystemNode) : FileSystemNode :=
  mkNode (type n) c (children n) (owner n) (permissions n) (created n) (modified n).
Definition setChildren (k : option (gmap string FileSystemNode)) (n : FileSystemNode)
  : FileSystemNode :=
  mkNode (type n) (content n) k (owner n) (permissions n) (created n) (modified n).
Definition setPermissions (p : string) (n : FileSystemNode) : FileSystemNode :=
  mkNode (type n) (content n) (children n) (owner n) p (created n) (modified n).
Definition setModified (t : Z) (n : FileSystemNode) : FileSystemNode :=
  mkNode (type n) (content n) (children n) (owner n) (permissions n) (created n) t.

Definition setRoot (r : FileSystemNode) (fs : FileSystem) : FileSystem :=
  mkFileSystem r (currentUser fs) (users fs).
Definition setCurrentUser (u : string) (fs : FileSystem) : FileSystem :=
  mkFileSystem (root fs) u (users fs).
Definition setUsers (us : gmap string User) (fs : FileSystem) : FileSystem :=
  mkFileSystem (root fs) (currentUser fs) us.

Definition isDirectory (n : FileSystemNode) : bool := bool_decide (type n = directory).
Definition isFile (n : FileSystemNode) : bool := bool_decide (type n = file).

(** [node.children[name]] on a node whose [children] may be missing, for
    the own entries of [children]; see the conventions for the names that
    the code finds by inheritance. *)
Definition child (name : string) (n : FileSystemNode) : option FileSystemNode :=
  match children n with
  | Some kids => kids !! name
  | None => None
  end.

(** The loop of [getNode]: follow [segments] down from [current]. *)
Fixpoint walk (segments : list string) (current : FileSystemNode)
  : option FileSystemNode :=
  match segments with
  | [] => Some current
  | segment :: rest =>
      match children current with
      | None => None
      | Some kids =>
          match kids !! segment with
          | None => None
          | Some next => walk rest next
          end
      end
  end.

(** A write through the reference that [walk segments] returns: the node
    found there becomes [f] of itself; nothing changes when the walk fails. *)
Fixpoint updateAt (segments : list string) (f : FileSystemNode -> FileSystemNode)
  (current : FileSystemNode) : FileSystemNode :=
  match segments with
  | [] => f current
  | segment :: rest =>
      match children current with
      | None => current
      | Some kids =>
          match kids !! segment with
          | None => current
          | Some next =>
              setChildren (Some (<[segment := updateAt rest f next]> kids)) current
          end
      end
  end.

(** [path.split('/').filter(Boolean)] *)
Definition segmentsOf (path : string) : list string :=
  List.filter Js.truthy (Js.split Js.slash path).

(** [getNode] *)
Definition getNode (fs : FileSystem) (path : string) : option FileSystemNode :=
  if Js.eqb_str path "/" then Some (root fs)
  else walk (segmentsOf path) (root fs).

(** The node that [getNode fs path] refers to is replaced by [f] of it. *)
Definition updateNode (path : string) (f : FileSystemNode -> FileSystemNode)
  (fs : FileSystem) : FileSystem :=
  setRoot (updateAt (segmentsOf path) f (root fs)) fs.

(** [cloneNode] *)
Fixpoint cloneNode (now : Z) (node : FileSystemNode) : FileSystemNode :=
  mkNode (type node) (content node)
    (fmap (M := option) (fmap (cloneNode now)) (children node))
    (owner node) (permissions node) (created node) now.

(** [resolvePath] *)
Definition homeOf (fs : FileSystem) : string :=
  match users fs !! currentUser fs with
  | Some u => if Js.truthy (homeDir u) then homeDir u
              else "/home/" +:+ currentUser fs
  | None => "/home/" +:+ currentUser fs
  end.

Definition applySegment (currentSegments : list string) (segment : string)
  : list string :=
  if Js.eqb_str segment ".." then
    if (0 <? Z.of_nat (length currentSegments)) then removelast currentSegments
    else currentSegments
  else if negb (Js.eqb_str segment ".") then currentSegments ++ [segment]
  else currentSegments.

Definition resolvePath (fs : FileSystem) (path currentPath : string) : string :=
  if Js.startsWith "/" path then path
  else if Js.eqb_str path "~" then homeOf fs
  else if Js.startsWith "~/" path then homeOf fs +:+ Js.substringFrom 1 path
  else
    let segments := segmentsOf path in
    let currentSegments := segmentsOf currentPath in
    "/" +:+ Js.join "/" (fold_left applySegment segments currentSegments).

(** ** The storage operations

    An operation runs on the object [fs] it is handed and on [localStorage];
    both are threaded through a state monad. *)

Record Mem := mkMem {
  fsObj : FileSystem;
  stored : option FileSystem
}.

Definition M (A : Type) : Type := Mem -> A * Mem.

Definition ret {A} (a : A) : M A := fun m => (a, m).
Definition bind {A B} (c : M A) (k : A -> M B) : M B :=
  fun m => let (a, m') := c m in k a m'.

Notation "x <- c ;; k" := (bind c (fun x => k))
  (at level 100, c at next level, right associativity).
Notation "c ;;; k" := (bind c (fun _ => k))
  (at level 100, right associativity).

Definition readFs : M FileSystem := fun m => (fsObj m, m).
Definition mutate (g : FileSystem -> FileSystem) : M unit :=
  fun m => (tt, mkMem (g (fsObj m)) (stored m)).

(** [saveFileSystem] *)
Definition saveFileSystem : M unit :=
  fun m => (tt, mkMem (fsObj m) (Some (fsObj m))).

(** The first three lines of [createNode] and of [deleteNode]. *)
Definition parentPathOf (path : string) : string :=
  let lastSlashIndex := Js.lastIndexOf Js.slash path in
  if lastSlashIndex <=? 0 then "/" else Js.substring 0 lastSlashIndex path.

Definition nameOf (path : string) : string :=
  let lastSlashIndex := Js.lastIndexOf Js.slash path in
  Js.substringFrom (lastSlashIndex + 1) path.

Definition freshNode (ty : NodeType) (user content_ : string) (now : Z)
  : FileSystemNode :=
  mkNode ty
    (match ty with file => Some content_ | directory => None end)
    (match ty with file => None | directory => Some ∅ end)
    user
    (match ty with file => "rw-r--r--" | directory => "rwxr-xr-x" end)
    now now.

(** [children] after [if (!node.children) node.children = {}]. *)
Definition kidsOf (n : FileSystemNode) : gmap string FileSystemNode :=
  default ∅ (children n).

(** [if (!node.children) node.children = {}] *)
Definition initChildren (n : FileSystemNode) : FileSystemNode :=
  setChildren (Some (kidsOf n)) n.

(** [createNode] *)
Definition createNode (path : string) (ty : NodeType) (content_ : string)
  (now : Z) : M bool :=
  let parentPath := parentPathOf path in
  let name := nameOf path in
  if negb (Js.truthy name) then ret false
  else
    fs <- readFs ;;
    match getNode fs parentPath with
    | None => ret false
    | Some parentNode =>
        if negb (isDirectory parentNode) then ret false
        else
          mutate (updateNode parentPath initChildren) ;;;
          match kidsOf parentNode !! name with
          | Some _ => ret false
          | None =>
              mutate (updateNode parentPath (fun p =>
                setChildren
                  (Some (<[name := freshNode ty (currentUser fs) content_ now]>
                           (kidsOf p))) p)) ;;;
              saveFileSystem ;;;
              ret true
          end
    end.

(** [deleteNode] *)
Definition deleteNode (path : string) : M bool :=
  let parentPath := parentPathOf path in
  let name := nameOf path in
  if negb (Js.truthy name) then ret false
  else
    fs <- readFs ;;
    match getNode fs parentPath with
    | None => ret false
    | Some parentNode =>
        if negb (isDirectory parentNode) then ret false
        else
          match children parentNode with
          | None => ret false
          | Some kids =>
              match kids !! name with
              | None => ret false
              | Some _ =>
                  mutate (updateNode parentPath (fun p =>
                    setChildren (delete name <$> children p) p)) ;;;
                  saveFileSystem ;;;
                  ret true
              end
          end
    end.

(** [sourcePath.match(/([^/]+)$/)]: the search tries every start from the
    left, and a start matches when what follows is a non-empty run without
    a slash up to the end. *)
Fixpoint matchTrailingName (s : string) : option string :=
  match s with
  | "" => None
  | String _ r =>
      if negb (Js.includes Js.slash s) then Some s else matchTrailingName r
  end.

(** [node && node.type === 'directory'] *)
Definition existsDirectory (node : option FileSystemNode) : bool :=
  match node with
  | Some n => isDirectory n
  | None => false
  end.

(** The two ways [copyNode] names its target: (destDirPath, destName). *)
Definition copyTarget (fs : FileSystem) (sourcePath destinationPath : string)
  : option (string * string) :=
  if existsDirectory (getNode fs destinationPath) then
    match matchTrailingName sourcePath with
    | None => None
    | Some name => Some (destinationPath, name)
    end
  else
    let lastSlash := Js.lastIndexOf Js.slash destinationPath in
    if lastSlash <? 0 then None
    else
      let d := Js.substring 0 lastSlash destinationPath in
      Some (if Js.truthy d then d else "/",
            Js.substringFrom (lastSlash + 1) destinationPath).

(** [copyNode].  [sourceNode] and [destDir] are references into the one
    tree: when [cloneNode] runs, the source is read as it is after
    [destDir.children] has been initialised. *)
Definition copyNode (sourcePath destinationPath : string) (now : Z) : M bool :=
  fs <- readFs ;;
  match getNode fs sourcePath with
  | None => ret false
  | Some sourceNode =>
      match copyTarget fs sourcePath destinationPath with
      | None => ret false
      | Some (destDirPath, destName) =>
          match getNode fs destDirPath with
          | None => ret false
          | Some destDir =>
              if negb (isDirectory destDir) then ret false
              else
                mutate (updateNode destDirPath initChildren) ;;;
                fs1 <- readFs ;;
                let sourceNow := default sourceNode (getNode fs1 sourcePath) in
                mutate (updateNode destDirPath (fun d =>
                  setChildren
                    (Some (<[destName := cloneNode now sourceNow]> (kidsOf d)))
                    d)) ;;;
                saveFileSystem ;;;
                ret true
          end
      end
  end.

(** [moveNode] *)
Definition moveNode (sourcePath destinationPath : string) (now : Z) : M bool :=
  copied <- copyNode sourcePath destinationPath now ;;
  if copied then deleteNode sourcePath else ret false.

(** [/^[r-][w-][x-][r-][w-][x-][r-][w-][x-]$/.test(mode)]: one character
    of each class in turn, then the end of the string. *)
Definition charClass := list ascii.

Fixpoint matchClasses (classes : list charClass) (s : string) : bool :=
  match classes, s with
  | [], "" => true
  | cl :: rest, String a r =>
      existsb (Js.eqb_char a) cl && matchClasses rest r
  | _, _ => false
  end.

Definition strictModePattern : list charClass :=
  let r := ["r"; "-"]%char in
  let w := ["w"; "-"]%char in
  let x := ["x"; "-"]%char in
  [r; w; x; r; w; x; r; w; x].

Definition isStrictMode (mode : string) : bool :=
  matchClasses strictModePattern mode.

(** [changePermissions] *)
Definition changePermissions (path mode : string) : M bool :=
  fs <- readFs ;;
  match getNode fs path with
  | None => ret false
  | Some _ =>
      if negb (isStrictMode mode) then
        mutate (updateNode path (setPermissions mode)) ;;;
        saveFileSystem ;;;
        ret true
      else ret false
  end.

(** [authenticateUser] *)
Definition authenticateUser (fs : FileSystem) (username password_ : string) : bool :=
  match users fs !! username with
  | None => false
  | Some u => Js.eqb_str (password u) password_
  end.

(** [switchUser] *)
Definition switchUser (username : string) : M bool :=
  fs <- readFs ;;
  match users fs !! username with
  | None => ret false
  | Some _ =>
      mutate (setCurrentUser username) ;;;
      saveFileSystem ;;;
      ret true
  end.

(** [addUser] *)
Definition bashrcFor (username : string) : string :=
  Js.join Js.nl
    ["# ~/.bashrc for " +:+ username;
     "# User specific settings";
     "PS1=" +:+ Js.dquote +:+ "\[\033[01;32m\]\u@\h:\w\$\[\033[00m\] " +:+ Js.dquote].

Definition addUser (username password_ : string) (isAdmin_ : bool) (now : Z)
  : M bool :=
  fs <- readFs ;;
  match users fs !! username with
  | Some _ => ret false
  | None =>
      let home := "/home/" +:+ username in
      mutate (fun fs' =>
        setUsers (<[username := mkUser password_ isAdmin_ home]> (users fs')) fs') ;;;
      _ <- createNode home directory "" now ;;
      fs1 <- readFs ;;
      match getNode fs1 home with
      | Some homeNode =>
          match children homeNode with
          | Some _ =>
              mutate (updateNode home (fun h =>
                setChildren
                  (insert ".bashrc"
                     (mkNode file (Some (bashrcFor username)) None username
                        "rw-r--r--" now now) <$> children h) h))
          | None => ret tt
          end
      | None => ret tt
      end ;;;
      saveFileSystem ;;;
      ret true
  end.

(** ** The literal [defaultFileSystem], built when the module is loaded at
    instant [t0] *)

Definition fileOf (owner_ perms content_ : string) (t0 : Z) : FileSystemNode :=
  mkNode file (Some content_) None owner_ perms t0 t0.

Definition dirOf (owner_ perms : string) (kids : list (string * FileSystemNode))
  (t0 : Z) : FileSystemNode :=
  mkNode directory None (Some (list_to_map kids)) owner_ perms t0 t0.

Definition defaultFileSystem (t0 : Z) : FileSystem :=
  let f o p c := fileOf o p c t0 in
  let d o p k := dirOf o p k t0 in
  mkFileSystem
    (d "root" "rwxr-xr-x"
      [("home", d "root" "rwxr-xr-x"
          [("ubuntu", d "ubuntu" "rwxr-xr-x"
              [("welcome.txt", f "ubuntu" "rw-r--r--"
                  (Js.join Js.nl
                    ["Welcome to Ubuntu Terminal!";
                     "Type " +:+ Js.dquote +:+ "help" +:+ Js.dquote
                       +:+ " to see available commands."]));
               (".bashrc", f "ubuntu" "rw-r--r--"
                  (Js.join Js.nl
                    ["# ~/.bashrc: executed by bash for non-login shells";
                     "# If not running interactively, don't do anything";
                     "[[ " +:+ Js.dquote +:+ "$-" +:+ Js.dquote
                       +:+ " != *i* ]] && return";
                     "# Don't put duplicate lines in the history";
                     "HISTCONTROL=ignoreboth"]))])]);
       ("etc", d "root" "rwxr-xr-x"
          [("passwd", f "root" "rw-r--r--"
              (Js.join Js.nl
                ["root:x:0:0:root:/root:/bin/bash";
                 "ubuntu:x:1000:1000:Ubuntu:/home/ubuntu:/bin/bash"]));
           ("hostname", f "root" "rw-r--r--" "ubuntu-terminal");
           ("hosts", f "root" "rw-r--r--"
              (Js.join Js.nl
                ["127.0.0.1 localhost"; "127.0.1.1 ubuntu-terminal"]))]);
       ("bin", d "root" "rwxr-xr-x" []);
       ("usr", d "root" "rwxr-xr-x" [("bin", d "root" "rwxr-xr-x" [])]);
       ("var", d "root" "rwxr-xr-x"
          [("log", d "root" "rwxr-xr-x"
              [("syslog", f "root" "rw-r--r--"
                  (Js.join Js.nl
                    ["Apr 16 00:00:00 ubuntu-terminal systemd[1]: Started User Manager for UID 1000.";
                     "Apr 16 00:00:01 ubuntu-terminal systemd[1]: Starting System Logger...";
                     "Apr 16 00:00:01 ubuntu-terminal systemd[1]: Started System Logger."]))])]);
       ("tmp", d "root" "rwxrwxrwx" []);
       ("root", d "root" "rwx------"
          [(".bashrc", f "root" "rw-------"
              (Js.join Js.nl
                ["# ~/.bashrc: executed by bash for non-login shells";
                 "# Root user specific settings";
                 "PS1=" +:+ Js.dquote +:+ "\[\033[01;31m\]\u@\h:\w\$\[\033[00m\] "
                   +:+ Js.dquote]))])])
    "ubuntu"
    (list_to_map
      [("root", mkUser "toor" true "/root");
       ("ubuntu", mkUser "ubuntu" false "/home/ubuntu")]).

(** ** The command history of [commandProcessor.ts] *)

Record CommandHistory := mkHistory {
  commands : list string;
  position : Z
}.

Definition commandHistory0 : CommandHistory := mkHistory [] (-1).

(** [addToHistory] *)
Definition addToHistory (command : string) (h : CommandHistory) : CommandHistory :=
  let cs := commands h in
  let cs' :=
    if Js.truthy (Js.trim command)
       && (bool_decide (length cs = 0%nat)
           || negb (bool_decide (last cs = Some command)))
    then cs ++ [command] else cs in
  mkHistory cs' (Z.of_nat (length cs')).

(** [getPreviousCommand] *)
Definition getPreviousCommand (h : CommandHistory) : string * CommandHistory :=
  if bool_decide (length (commands h) = 0%nat) then ("", h)
  else
    let p := if 0 <? position h then position h - 1 else position h in
    (match Js.at_ (commands h) p with
     | Some c => if Js.truthy c then c else ""
     | None => ""
     end,
     mkHistory (commands h) p).

(** [getNextCommand].  The entry read in the first branch exists whenever
    [-1 <= position], which every reachable history satisfies. *)
Definition getNextCommand (h : CommandHistory) : string * CommandHistory :=
  if position h <? Z.of_nat (length (commands h)) - 1 then
    let p := position h + 1 in
    (default "" (Js.at_ (commands h) p), mkHistory (commands h) p)
  else ("", mkHistory (commands h) (Z.of_nat (length (commands h)))).

(** ** The interpreter of [commandProcessor.ts] *)

Record TerminalState := mkState {
  currentPath : string;
  output : list string;
  currentInput : string;
  inputPosition : Z;
  isPasswordMode : bool;
  tempUser : string;
  sudoMode : bool;
  sudoCommand : string
}.

Definition initialTerminalState : TerminalState :=
  mkState "/home/ubuntu"
    ["Welcome to Ubuntu 22.04.1 LTS (GNU/Linux 5.15.0-56-generic x86_64)";
     "Type " +:+ Js.dquote +:+ "help" +:+ Js.dquote
       +:+ " to see available commands."]
    "" 0 false "" false "".

Record CommandResult := mkResult {
  r_output : list string;
  r_newPath : option string;
  r_isPasswordMode : option bool;
  r_tempUser : option string;
  r_sudoMode : option bool;
  r_sudoCommand : option string
}.

(** [{ output: lines }] *)
Definition out (lines : list string) : CommandResult :=
  mkResult lines None None None None None.

(** [a || b] on a possibly missing string *)
Definition orElse (a : option string) (b : string) : string :=
  match a with
  | Some s => if Js.truthy s then s else b
  | None => b
  end.

(** A possibly missing string inside a template literal *)
Definition shown (a : option string) : string := default "undefined" a.

Definition quoted (s : string) : string := "'" +:+ s +:+ "'".

(** The option loop of [case 'rm']: (recursive, force, rmPath). *)
Definition rmOptions (args : list string) : bool * bool * string :=
  fold_left
    (fun '(recursive, force, rmPath) a =>
       if Js.startsWith "-" a then
         (recursive || Js.includes "r" a || Js.includes "R" a,
          force || Js.includes "f" a, rmPath)
       else (recursive, force, a))
    (Js.slice1 args) (false, false, "").

(** [case 'rm'] *)
Definition rmCase (args : list string) (state : TerminalState) : M CommandResult :=
  fs <- readFs ;;
  let '(recursive, force, rmPath) := rmOptions args in
  if negb (Js.truthy rmPath) then ret (out ["rm: missing operand"])
  else
    let rmNodePath := resolvePath fs rmPath (currentPath state) in
    match getNode fs rmNodePath with
    | None =>
        if force then ret (out [])
        else ret (out ["rm: cannot remove " +:+ quoted rmPath
                         +:+ ": No such file or directory"])
    | Some rmNode =>
        if isDirectory rmNode && negb recursive then
          ret (out ["rm: cannot remove " +:+ quoted rmPath +:+ ": Is a directory"])
        else
          deleted <- deleteNode rmNodePath ;;
          if deleted then ret (out [])
          else ret (out ["rm: cannot remove " +:+ quoted rmPath])
    end.

(** The append branch of [case 'echo'].  It has no [return] when the target
    is absent and cannot be created: control then falls into [case 'rm']. *)
Definition echoAppend (args : list string) (content_ redirectPath : string)
  (state : TerminalState) (now : Z) : M CommandResult :=
  fs <- readFs ;;
  let appendPath := resolvePath fs redirectPath (currentPath state) in
  match getNode fs appendPath with
  | Some appendNode =>
      if isFile appendNode then
        mutate (updateNode appendPath (fun n =>
          setModified now
            (setContent
               (Some (orElse (content n) "" +:+ Js.nl +:+ content_)) n))) ;;;
        saveFileSystem ;;;
        ret (out [])
      else ret (out ["echo: " +:+ redirectPath +:+ ": Is a directory"])
  | None =>
      made <- createNode appendPath file content_ now ;;
      if made then ret (out []) else rmCase args state
  end.

(** The write branch of [case 'echo']. *)
Definition echoWrite (content_ redirectPath : string) (state : TerminalState)
  (now : Z) : M CommandResult :=
  fs <- readFs ;;
  let writePath := resolvePath fs redirectPath (currentPath state) in
  let parentPath := parentPathOf writePath in
  let name := nameOf writePath in
  match getNode fs parentPath with
  | None =>
      ret (out ["echo: " +:+ redirectPath +:+ ": No such file or directory"])
  | Some parentNode =>
      if negb (isDirectory parentNode) then
        ret (out ["echo: " +:+ redirectPath +:+ ": No such file or directory"])
      else
        mutate (updateNode parentPath initChildren) ;;;
        match kidsOf parentNode !! name with
        | Some existing =>
            if isFile existing then
              mutate (updateNode parentPath (fun p =>
                setChildren
                  (Some (alter (fun c =>
                           setModified now (setContent (Some content_) c))
                         name (kidsOf p))) p)) ;;;
              saveFileSystem ;;;
              ret (out [])
            else ret (out ["echo: " +:+ redirectPath +:+ ": Is a directory"])
        | None =>
            _ <- createNode writePath file content_ now ;;
            saveFileSystem ;;;
            ret (out [])
        end
  end.

(** [case 'echo'] *)
Definition echoCase (args : list string) (state : TerminalState) (now : Z)
  : M CommandResult :=
  let echoText := Js.join " " (Js.slice1 args) in
  let redirectIndex := Js.indexOf ">" echoText in
  if 0 <=? redirectIndex then
    let content_ := Js.trim (Js.substring 0 redirectIndex echoText) in
    let redirectPath := Js.trim (Js.substringFrom (redirectIndex + 1) echoText) in
    if Js.startsWith ">" redirectPath then
      echoAppend args content_ (Js.trim (Js.substringFrom 1 redirectPath))
        state now
    else echoWrite content_ redirectPath state now
  else ret (out [echoText]).

(** What the browser holds between two calls: the snapshot in
    [localStorage] (absent before the first save) and the module-level
    object [defaultFileSystem], which [loadFileSystem] hands out itself, not
    a copy of it, while nothing is stored. *)
Record World := mkWorld {
  localStorage : option FileSystem;
  defaultObj : FileSystem
}.

(** [loadFileSystem] *)
Definition loadFileSystem (w : World) : FileSystem :=
  default (defaultObj w) (localStorage w).

(** [const fs = loadFileSystem(); body]: [body] runs on the loaded object;
    its writes reach [defaultObj] when that is the object it was handed. *)
Definition withLoaded {A} (body : M A) (w : World) : A * World :=
  let (a, m) := body (mkMem (loadFileSystem w) (localStorage w)) in
  (a, mkWorld (stored m)
        (match localStorage w with
         | Some _ => defaultObj w
         | None => fsObj m
         end)).

Section Interpreter.

(** The output of the commands that only print ([ls], [grep], [apt],
    [apt-get], [date], [uname], [df], [ps], [top], [man], [help], [exit]
    and any unknown command), from the command name, the arguments, the
    loaded store, the state and the instant of the call.  These commands
    write neither the tree nor [localStorage].  Their text is left open: it
    depends on the locale, on the enumeration order of object keys and, for
    [ps] and [top], on a random number, which stands here as drawn from the
    instant. *)
Variable printed :
  string -> list string -> FileSystem -> TerminalState -> Z -> list string.

(** [processCommandInternal], after [const fs = loadFileSystem()]. *)
Definition dispatch (command : string) (state : TerminalState) (now : Z)
  : M CommandResult :=
  fs <- readFs ;;
  let args := Js.splitWhitespace command in
  let cmd := Js.toLowerCase (default "" (args !! 0%nat)) in
  let named name := Js.eqb_str cmd name in
  let argc := Z.of_nat (length args) in
  if Js.eqb_str (Js.trim command) "" then ret (out [])
  else if named "sudo" then
    if 1 <? argc then
      ret (mkResult ["[sudo] password for " +:+ currentUser fs +:+ ":"]
             None None None (Some true) (Some (Js.join " " (Js.slice1 args))))
    else ret (out ["sudo: command required"])
  else if named "pwd" then ret (out [currentPath state])
  else if named "cd" then
    let targetPath := orElse (args !! 1%nat) "~" in
    let resolvedPath := resolvePath fs targetPath (currentPath state) in
    match getNode fs resolvedPath with
    | None =>
        ret (out ["cd: " +:+ shown (args !! 1%nat) +:+ ": No such file or directory"])
    | Some targetNode =>
        if negb (isDirectory targetNode) then
          ret (out ["cd: " +:+ shown (args !! 1%nat) +:+ ": Not a directory"])
        else ret (mkResult [] (Some resolvedPath) None None None None)
    end
  else if named "mkdir" then
    if argc <? 2 then ret (out ["mkdir: missing operand"])
    else
      let dirPath := resolvePath fs (shown (args !! 1%nat)) (currentPath state) in
      made <- createNode dirPath directory "" now ;;
      if made then ret (out [])
      else ret (out ["mkdir: cannot create directory "
                       +:+ quoted (shown (args !! 1%nat))
                       +:+ ": File exists or invalid path"])
  else if named "touch" then
    if argc <? 2 then ret (out ["touch: missing file operand"])
    else
      let filePath := resolvePath fs (shown (args !! 1%nat)) (currentPath state) in
      made <- createNode filePath file "" now ;;
      if made then ret (out [])
      else ret (out ["touch: cannot touch " +:+ quoted (shown (args !! 1%nat))
                       +:+ ": File exists or invalid path"])
  else if named "cat" then
    if argc <? 2 then ret (out ["cat: missing file operand"])
    else
      let catPath := resolvePath fs (shown (args !! 1%nat)) (currentPath state) in
      match getNode fs catPath with
      | None =>
          ret (out ["cat: " +:+ shown (args !! 1%nat)
                      +:+ ": No such file or directory"])
      | Some fileNode =>
          if negb (isDirectory fileNode) then
            ret (out (Js.split "010"%char (orElse (content fileNode) "")))
          else ret (out ["cat: " +:+ shown (args !! 1%nat) +:+ ": Is a directory"])
      end
  else if named "echo" then echoCase args state now
  else if named "rm" then rmCase args state
  else if named "clear" then ret (out ["CLEAR_TERMINAL"])
  else if named "whoami" then ret (out [currentUser fs])
  else if named "su" then
    let targetUser := orElse (args !! 1%nat) "root" in
    match users fs !! targetUser with
    | None => ret (out ["su: user " +:+ targetUser +:+ " does not exist"])
    | Some u =>
        if Js.eqb_str (currentUser fs) "root"
           || Js.eqb_str targetUser (currentUser fs) then
          _ <- switchUser targetUser ;;
          ret (mkResult [] (Some (homeDir u)) None None None None)
        else
          ret (mkResult ["Password for " +:+ targetUser +:+ ":"]
                 None (Some true) (Some targetUser) None None)
    end
  else if named "adduser" then
    if negb (Js.eqb_str (currentUser fs) "root") then
      ret (out ["adduser: Only root may add a user or group to the system."])
    else if argc <? 2 then ret (out ["adduser: Missing username"])
    else
      let newUsername := shown (args !! 1%nat) in
      let newPassword := orElse (args !! 2%nat) newUsername in
      added <- addUser newUsername newPassword false now ;;
      if added then
        ret (out ["Added user " +:+ newUsername
                    +:+ ". Home directory created at /home/" +:+ newUsername])
      else
        ret (out ["adduser: The user " +:+ quoted newUsername +:+ " already exists."])
  else if named "passwd" then
    if argc <? 2 then ret (out ["passwd: Missing username"])
    else
      let who := shown (args !! 1%nat) in
      if negb (Js.eqb_str (currentUser fs) "root")
         && negb (Js.eqb_str (currentUser fs) who) then
        ret (out ["passwd: Only root can change passwords for other users"])
      else
        match users fs !! who with
        | None => ret (out ["passwd: user " +:+ quoted who +:+ " does not exist"])
        | Some _ =>
            if argc <? 3 then ret (out ["passwd: Missing new password"])
            else
              mutate (fun fs' =>
                setUsers
                  (alter (fun u =>
                            mkUser (shown (args !! 2%nat)) (isAdmin u) (homeDir u))
                         who (users fs')) fs') ;;;
              saveFileSystem ;;;
              ret (out ["Password for " +:+ who +:+ " changed"])
        end
  else if named "cp" then
    if argc <? 3 then ret (out ["cp: missing file operand"])
    else
      let sourcePath := resolvePath fs (shown (args !! 1%nat)) (currentPath state) in
      let destinationPath :=
        resolvePath fs (shown (args !! 2%nat)) (currentPath state) in
      match getNode fs sourcePath with
      | None =>
          ret (out ["cp: cannot stat " +:+ quoted (shown (args !! 1%nat))
                      +:+ ": No such file or directory"])
      | Some _ =>
          copied <- copyNode sourcePath destinationPath now ;;
          if copied then ret (out [])
          else ret (out ["cp: cannot copy " +:+ quoted (shown (args !! 1%nat))
                           +:+ " to " +:+ quoted (shown (args !! 2%nat))])
      end
  else if named "mv" then
    if argc <? 3 then ret (out ["mv: missing file operand"])
    else
      let mvSourcePath :=
        resolvePath fs (shown (args !! 1%nat)) (currentPath state) in
      let mvDestinationPath :=
        resolvePath fs (shown (args !! 2%nat)) (currentPath state) in
      match getNode fs mvSourcePath with
      | None =>
          ret (out ["mv: cannot stat " +:+ quoted (shown (args !! 1%nat))
                      +:+ ": No such file or directory"])
      | Some _ =>
          moved <- moveNode mvSourcePath mvDestinationPath now ;;
          if moved then ret (out [])
          else ret (out ["mv: cannot move " +:+ quoted (shown (args !! 1%nat))
                           +:+ " to " +:+ quoted (shown (args !! 2%nat))])
      end
  else if named "chmod" then
    if argc <? 3 then ret (out ["chmod: missing operand"])
    else
      let mode := shown (args !! 1%nat) in
      let chmodPath := resolvePath fs (shown (args !! 2%nat)) (currentPath state) in
      match getNode fs chmodPath with
      | None =>
          ret (out ["chmod: cannot access " +:+ quoted (shown (args !! 2%nat))
                      +:+ ": No such file or directory"])
      | Some _ =>
          changed <- changePermissions chmodPath mode ;;
          if changed then ret (out [])
          else ret (out ["chmod: invalid mode: " +:+ quoted mode])
      end
  else ret (out (printed cmd args fs state now)).

(** [processCommandInternal] *)
Definition processCommandInternal (command : string) (state : TerminalState)
  (now : Z) (w : World) : CommandResult * World :=
  withLoaded (dispatch command state now) w.

(** [state.sudoMode && password], [state.isPasswordMode && password]: a
    missing or empty password is falsy. *)
Definition given (password_ : option string) : bool :=
  match password_ with
  | Some p => Js.truthy p
  | None => false
  end.

(** [processCommand].  In the sudo branch [fs] is the object loaded before
    the buffered command runs; the buffered command loads its own. *)
Definition processCommand (command : string) (state : TerminalState)
  (password_ : option string) (now : Z) (w : World) : CommandResult * World :=
  if sudoMode state && given password_ then
    let fs := loadFileSystem w in
    let isDefault := bool_decide (localStorage w = None) in
    if authenticateUser fs "root" (default "" password_) then
      let originalUser := currentUser fs in
      let fs1 := setCurrentUser "root" fs in
      let w1 := mkWorld (Some fs1) (if isDefault then fs1 else defaultObj w) in
      let (result, w2) := processCommandInternal (sudoCommand state) state now w1 in
      let fs2 := setCurrentUser originalUser
                   (if isDefault then defaultObj w2 else fs1) in
      (mkResult (r_output result) (r_newPath result) (r_isPasswordMode result)
         (r_tempUser result) (Some false) (Some ""),
       mkWorld (Some fs2) (if isDefault then fs2 else defaultObj w2))
    else
      (mkResult ["Sorry, try again."] None None None (Some false) (Some ""), w)
  else if isPasswordMode state && given password_ then
    withLoaded
      (fs <- readFs ;;
       if authenticateUser fs (tempUser state) (default "" password_) then
         _ <- switchUser (tempUser state) ;;
         let home :=
           orElse (homeDir <$> users fs !! tempUser state)
                  ("/home/" +:+ tempUser state) in
         ret (mkResult ["Welcome, " +:+ tempUser state +:+ "!"]
                (Some home) (Some false) (Some "") None None)
       else
         ret (mkResult ["Authentication failed."]
                None (Some false) (Some "") None None)) w
  else processCommandInternal command state now w.

(** ** The Enter handler of [Terminal.tsx] *)

Record Session := mkSession {
  term : TerminalState;
  world : World;
  history : CommandHistory
}.

Definition getPrompt (path : string) (w : World) : string :=
  currentUser (loadFileSystem w) +:+ "@terminal:" +:+ path +:+ "$".

Fixpoint repeatStar (n : nat) : string :=
  match n with
  | O => ""
  | S k => String "*" (repeatStar k)
  end.

(** The next state that [setState] installs from a result. *)
Definition nextState (prev : TerminalState) (lines : list string)
  (result : CommandResult) : TerminalState :=
  mkState (orElse (r_newPath result) (currentPath prev))
    lines "" 0
    (default false (r_isPasswordMode result))
    (orElse (r_tempUser result) "")
    (default false (r_sudoMode result))
    (orElse (r_sudoCommand result) "").

(** [handleKeyDown] on the Enter key, the input field holding [line]. *)
Definition handleEnter (line : string) (now : Z) (s : Session) : Session :=
  let state := term s in
  let command := Js.trim line in
  if isPasswordMode state || sudoMode state then
    let (result, w') := processCommand command state (Some command) now (world s) in
    let echoed :=
      if isPasswordMode state
      then repeatStar (Z.to_nat (Js.strlen command)) else command in
    mkSession
      (nextState state (output state ++ echoed :: r_output result) result)
      w' (history s)
  else
    let h' := if Js.truthy command then addToHistory command (history s)
              else history s in
    let (result, w') := processCommand command state None now (world s) in
    if bool_decide (r_output result = ["CLEAR_TERMINAL"]) then
      mkSession (nextState state [] result) w' h'
    else
      mkSession
        (nextState state
           (output state
              ++ (getPrompt (currentPath state) w' +:+ " " +:+ command)
              :: r_output result)
           result)
        w' h'.

End Interpreter.

(** ** The completion of [commandProcessor.ts] *)

Definition AVAILABLE_COMMANDS : list string :=
  ["ls"; "cd"; "pwd"; "mkdir"; "touch"; "cat"; "rm"; "echo"; "clear";
   "sudo"; "su"; "whoami"; "adduser"; "passwd"; "apt"; "apt-get";
   "grep"; "date"; "uname"; "df"; "ps"; "top"; "man"; "cp"; "mv";
   "chmod"; "find"; "help"; "exit"].

Definition pathCommands : list string :=
  ["cd"; "ls"; "cat"; "rm"; "mkdir"; "touch"; "cp"; "mv"].

(** One suggestion of the path branch. *)
Definition pathOption (cmd : string) (entry : string * FileSystemNode) : string :=
  if isDirectory entry.2 then cmd +:+ " " +:+ entry.1 +:+ "/"
  else cmd +:+ " " +:+ entry.1.

(** [getAutocompleteOptions].  [entries] is [Object.entries]: the entries of
    an object in the order in which the engine enumerates its keys. *)
Definition getAutocompleteOptions
  (entries : gmap string FileSystemNode -> list (string * FileSystemNode))
  (input currentPath : string) (w : World) : list string :=
  if negb (Js.truthy (Js.trim input)) then []
  else
    let fs := loadFileSystem w in
    let args := Js.splitWhitespace input in
    if bool_decide (length args = 1%nat) then
      List.filter (fun cmd => Js.startsWith (default "" (args !! 0%nat)) cmd)
        AVAILABLE_COMMANDS
    else if existsb (Js.eqb_str (default "" (args !! 0%nat))) pathCommands
            && bool_decide (length args = 2%nat) then
      match getNode fs currentPath with
      | None => []
      | Some currentNode =>
          match children currentNode with
          | None => []
          | Some kids =>
              let prefix := default "" (args !! 1%nat) in
              pathOption (default "" (args !! 0%nat))
                <$> List.filter (fun entry => Js.startsWith prefix entry.1)
                      (entries kids)
          end
      end
    else [].

(** ** The vocabulary of the properties *)

(** The fields of a node that no write to its [children] or [permissions]
    touches. *)
Definition sameIdentity (a b : FileSystemNode) : Prop :=
  type a = type b /\ content a = content b /\ owner a = owner b
  /\ created a = created b /\ modified a = modified b.

(** The fields of a node other than its [children]. *)
Definition sameFields (a b : FileSystemNode) : Prop :=
  type a = type b /\ content a = content b /\ owner a = owner b
  /\ permissions a = permissions b /\ created a = created b
  /\ modified a = modified b.

(** [a] resolves where [b] does, to a node with the fields of [b]'s. *)
Definition agree (a b : option FileSystemNode) : Prop :=
  match b with
  | Some o => exists o', a = Some o' /\ sameFields o' o
  | None => a = None
  end.


(** The five operations that write the tree. *)
Inductive StoreOp :=
  | DoCreate (path : string) (ty : NodeType) (content_ : string)
  | DoDelete (path : string)
  | DoCopy (sourcePath destinationPath : string)
  | DoMove (sourcePath destinationPath : string)
  | DoChmod (path mode : string).

Definition runOp (op : StoreOp) (now : Z) : M bool :=
  match op with
  | DoCreate path ty content_ => createNode path ty content_ now
  | DoDelete path => deleteNode path
  | DoCopy s d => copyNode s d now
  | DoMove s d => moveNode s d now
  | DoChmod path mode => changePermissions path mode
  end.

(** A sequence of operations, each with the instant at which it runs. *)
Fixpoint runOps (ops : list (StoreOp * Z)) (m : Mem) : Mem :=
  match ops with
  | [] => m
  | (op, now) :: rest => runOps rest (snd (runOp op now m))
  end.

(** The root of [m'] is the root of [m], up to its entries and its
    permissions. *)
Definition rootKept (m m' : Mem) : Prop :=
  sameIdentity (root (fsObj m')) (root (fsObj m)).

(** What the shell does to the history: a submitted command, arrow up,
    arrow down. *)
Inductive HistoryOp :=
  | Add (command : string)
  | Previous
  | Next.

Definition historyStep (h : CommandHistory) (op : HistoryOp) : CommandHistory :=
  match op with
  | Add command => addToHistory command h
  | Previous => snd (getPreviousCommand h)
  | Next => snd (getNextCommand h)
  end.

(** The history after the key strokes [ops], from the empty history with
    which the module starts. *)
Definition historyAfter (ops : list HistoryOp) : CommandHistory :=
  fold_left historyStep ops commandHistory0.

Fixpoint noRepeat (l : list string) : Prop :=
  match l with
  | a :: (b :: _) as rest => a <> b /\ noRepeat rest
  | _ => True
  end.

Definition wellFormed (h : CommandHistory) : Prop :=
  -1 <= position h <= Z.of_nat (length (commands h))
  /\ (commands h <> [] -> 0 <= position h)
  /\ noRepeat (commands h)
  /\ Forall (fun c => Js.trim c <> "") (commands h).

(** A measure for induction on nodes. *)
Fixpoint nodeSize (n : FileSystemNode) : nat :=
  S (match children n with
     | Some kids => map_fold (fun _ c acc => (nodeSize c + acc)%nat) 0%nat kids
     | None => 0%nat
     end).

(** Two nodes are equivalent when they differ at most in the [modified]
    stamps of their nodes: clones of them taken at one instant are equal. *)
Definition equivalent (a b : FileSystemNode) : Prop :=
  cloneNode 0 a = cloneNode 0 b.

(** What the specification says of a copy into a directory: any existing
    source can be copied into any existing directory. *)
Definition copy_into_any_directory : Prop :=
  forall fs st src dst now n d,
    getNode fs src = Some n -> getNode fs dst = Some d -> type d = directory ->
    fst (copyNode src dst now (mkMem fs st)) = true.

(** What the specification says of a move whose copy succeeds and whose
    delete fails: the move fails, and source and destination both resolve,
    to equivalent nodes. *)
Definition moveNode_failed_delete_keeps_both : Prop :=
  forall src dst now m,
    fst (copyNode src dst now m) = true ->
    fst (deleteNode src (snd (copyNode src dst now m))) = false ->
    fst (moveNode src dst now m) = false
    /\ exists a b,
         getNode (fsObj (snd (moveNode src dst now m))) src = Some a
         /\ getNode (fsObj (snd (moveNode src dst now m))) dst = Some b
         /\ equivalent a b.

(** The store after [mkdir /tmp/tmp] at instant 1. *)
Definition withTmpTmp : Mem :=
  snd (createNode "/tmp/tmp" directory "" 1 (mkMem (defaultFileSystem 0) None)).

(** What the specification says of a line that is not the root password:
    the answer is [Sorry, try again.], the shell reads from the result that
    the sudo mode is off and the buffered command empty, and nothing is
    written. *)
Definition sudo_refuses_every_wrong_line : Prop :=
  forall printed line st now w,
    sudoMode st = true ->
    authenticateUser (loadFileSystem w) "root" line = false ->
    let r := processCommand printed line st (Some line) now w in
    r_output (fst r) = ["Sorry, try again."]
    /\ default false (r_sudoMode (fst r)) = false
    /\ orElse (r_sudoCommand (fst r)) "" = ""
    /\ snd r = w.





(** The parts of an [echo] line, as [case 'echo'] cuts them: the words
    after the first joined by one space; of that text, what stands before
    the first [>], trimmed; and what stands after it, trimmed. *)
Definition echoTextOf (line : string) : string :=
  Js.join " " (Js.slice1 (Js.splitWhitespace line)).

Definition echoContentOf (line : string) : string :=
  Js.trim (Js.substring 0 (Js.indexOf ">" (echoTextOf line)) (echoTextOf line)).

Definition echoRestOf (line : string) : string :=
  Js.trim (Js.substringFrom (Js.indexOf ">" (echoTextOf line) + 1)
             (echoTextOf line)).

(** The target of an append: what stands after the second [>]. *)
Definition echoAppendPathOf (line : string) : string :=
  Js.trim (Js.substringFrom 1 (echoRestOf line)).

(** A segment: not empty, and without a slash. *)
Definition segmentLike (t : string) : Prop :=
  t <> "" /\ Js.includes Js.slash t = false.

(** An operation that either fails and changes nothing, or succeeds and
    leaves in [localStorage] the object as it is. *)
Definition savesOrLeaves (m : Mem) (r : bool * Mem) : Prop :=
  if fst r then stored (snd r) = Some (fsObj (snd r)) else snd r = m.


(** The command word of a line, as [processCommandInternal] reads it. *)
Definition commandName (command : string) : string :=
  Js.toLowerCase (default "" (Js.splitWhitespace command !! 0%nat)).

(** The commands of [processCommandInternal] whose case calls a storage
    operation or [saveFileSystem]. *)
Definition writingCommands : list string :=
  ["mkdir"; "touch"; "echo"; "rm"; "su"; "adduser"; "passwd"; "cp"; "mv";
   "chmod"].

(** [k] presses of the Up key. *)
Definition pressUp (k : nat) (h : CommandHistory) : CommandHistory :=
  Nat.iter k (fun h' => snd (getPreviousCommand h')) h.




(** * Properties *)

(** ** Strings *)

Module JsFacts.
Import Js.

Lemma append_cons a s t : String a s +:+ t = String a (s +:+ t).
Proof. reflexivity. Qed.

Lemma append_nil_l t : "" +:+ t = t.
Proof. reflexivity. Qed.

Lemma eqb_char_true a b : eqb_char a b = true <-> a = b.
Proof. unfold eqb_char. apply bool_decide_eq_true. Qed.

Lemma eqb_char_false a b : eqb_char a b = false <-> a <> b.
Proof. unfold eqb_char. apply bool_decide_eq_false. Qed.

Lemma eqb_char_refl a : eqb_char a a = true.
Proof. by apply eqb_char_true. Qed.

Lemma eqb_str_true a b : eqb_str a b = true <-> a = b.
Proof. unfold eqb_str. apply bool_decide_eq_true. Qed.

Lemma eqb_str_false a b : eqb_str a b = false <-> a <> b.
Proof. unfold eqb_str. apply bool_decide_eq_false. Qed.

Lemma truthy_true s : truthy s = true <-> s <> "".
Proof.
  unfold truthy. rewrite negb_true_iff. apply eqb_str_false.
Qed.

Lemma truthy_false s : truthy s = false <-> s = "".
Proof.
  unfold truthy. rewrite negb_false_iff. apply eqb_str_true.
Qed.

Lemma split_nonempty c s : split c s <> [].
Proof.
  destruct s as [|a r]; simpl; [done|].
  destruct (eqb_char a c); [done|]. by destruct (split c r).
Qed.

(** Splitting around one separator. *)
Lemma split_app c pre rest :
  split c (pre +:+ String c rest) = split c pre ++ split c rest.
Proof.
  induction pre as [|a pre IH].
  - rewrite append_nil_l. simpl. by rewrite eqb_char_refl.
  - rewrite append_cons. simpl. destruct (eqb_char a c); rewrite IH.
    + done.
    + pose proof (split_nonempty c pre). by destruct (split c pre).
Qed.

Lemma split_without c s : includes c s = false -> split c s = [s].
Proof.
  induction s as [|a r IH]; simpl; [done|].
  intros [Ha Hr]%orb_false_iff. rewrite Ha, (IH Hr). done.
Qed.

Lemma lastIndexOf_ge c s : -1 <= lastIndexOf c s.
Proof.
  induction s as [|a r IH]; simpl; [lia|].
  destruct (0 <=? lastIndexOf c r) eqn:E; [apply Z.leb_le in E; lia|].
  destruct (eqb_char a c); lia.
Qed.

Lemma lastIndexOf_none c s : lastIndexOf c s < 0 -> includes c s = false.
Proof.
  induction s as [|a r IH]; simpl; [done|].
  destruct (0 <=? lastIndexOf c r) eqn:E.
  - apply Z.leb_le in E. lia.
  - apply Z.leb_gt in E. destruct (eqb_char a c); [lia|]. intros _. by apply IH.
Qed.

(** The text before the last separator, the separator, and the text after
    it, which holds no separator. *)
Lemma lastIndexOf_split c s :
  0 <= lastIndexOf c s ->
  s = take (Z.to_nat (lastIndexOf c s)) s
        +:+ String c (drop (S (Z.to_nat (lastIndexOf c s))) s)
  /\ includes c (drop (S (Z.to_nat (lastIndexOf c s))) s) = false.
Proof.
  induction s as [|a r IH]; simpl; [lia|].
  destruct (0 <=? lastIndexOf c r) eqn:E.
  - apply Z.leb_le in E. intros _. destruct (IH E) as [H1 H2].
    replace (Z.to_nat (1 + lastIndexOf c r)) with (S (Z.to_nat (lastIndexOf c r)))
      by lia.
    simpl. rewrite append_cons. split; [by f_equal|done].
  - apply Z.leb_gt in E. destruct (eqb_char a c) eqn:Ea; [|lia].
    intros _. apply eqb_char_true in Ea as ->. simpl. rewrite append_nil_l.
    split; [done|]. by apply lastIndexOf_none.
Qed.

Lemma substring_0 b s : 0 <= b -> substring 0 b s = take (Z.to_nat b) s.
Proof.
  intros Hb. unfold substring. rewrite Z.min_l, Z.max_r by lia. simpl.
  by rewrite Nat.sub_0_r.
Qed.

Lemma substringFrom_succ i s : 0 <= i -> substringFrom (i + 1) s = drop (S (Z.to_nat i)) s.
Proof.
  intros Hi. unfold substringFrom. by replace (Z.to_nat (i + 1)) with (S (Z.to_nat i)) by lia.
Qed.

Lemma includes_app c s t : includes c (s +:+ t) = includes c s || includes c t.
Proof.
  induction s as [|a r IH]; [done|].
  rewrite append_cons. simpl. rewrite IH. by rewrite orb_assoc.
Qed.

End JsFacts.

(** ** Paths *)

Module PathFacts.
Import Js JsFacts.

Lemma segmentsOf_root : segmentsOf "/" = [].
Proof. reflexivity. Qed.

Lemma segmentsOf_empty : segmentsOf "" = [].
Proof. reflexivity. Qed.

Lemma segmentsOf_slash_free s :
  includes slash s = false -> segmentsOf s = if truthy s then [s] else [].
Proof. intros H. unfold segmentsOf. by rewrite (split_without _ _ H). Qed.

(** The segments of a path whose last slash is at index [i]. *)
Lemma segmentsOf_at_last_slash path :
  0 <= lastIndexOf slash path ->
  segmentsOf path
  = segmentsOf (take (Z.to_nat (lastIndexOf slash path)) path)
      ++ (if truthy (nameOf path) then [nameOf path] else []).
Proof.
  intros Hi. destruct (lastIndexOf_split slash path Hi) as [Hs Hn].
  unfold nameOf. rewrite substringFrom_succ by done.
  set (pre := take _ path) in *. set (name := drop _ path) in *.
  unfold segmentsOf at 1. rewrite Hs, split_app, List.filter_app.
  by rewrite (split_without _ _ Hn).
Qed.

(** [getNode] on the parent path, then the name: the same walk as
    [getNode] on the path. *)
Lemma segmentsOf_parent_name path :
  segmentsOf path
  = segmentsOf (parentPathOf path)
      ++ (if truthy (nameOf path) then [nameOf path] else []).
Proof.
  pose proof (lastIndexOf_ge slash path) as Hge.
  destruct (Z_lt_le_dec (lastIndexOf slash path) 0) as [Hneg|Hpos].
  - assert (lastIndexOf slash path = -1) as Hi by lia.
    unfold parentPathOf, nameOf. rewrite Hi. simpl.
    change (substringFrom (-1 + 1) path) with path.
    apply segmentsOf_slash_free. apply lastIndexOf_none. lia.
  - rewrite (segmentsOf_at_last_slash path Hpos). f_equal.
    unfold parentPathOf.
    destruct (lastIndexOf slash path <=? 0) eqn:E.
    + apply Z.leb_le in E. assert (lastIndexOf slash path = 0) as -> by lia.
      reflexivity.
    + by rewrite substring_0.
Qed.

Lemma nameOf_slash_free path : includes slash (nameOf path) = false.
Proof.
  pose proof (lastIndexOf_ge slash path) as Hge.
  destruct (Z_lt_le_dec (lastIndexOf slash path) 0) as [Hneg|Hpos].
  - assert (lastIndexOf slash path = -1) as Hi by lia.
    unfold nameOf. rewrite Hi. unfold substringFrom. simpl.
    apply lastIndexOf_none. lia.
  - unfold nameOf. rewrite substringFrom_succ by done.
    by apply lastIndexOf_split.
Qed.

Lemma lastIndexOf_slash_free c s : includes c s = false -> lastIndexOf c s = -1.
Proof.
  induction s as [|a r IH]; simpl; [done|].
  intros [Ha Hr]%orb_false_iff. by rewrite (IH Hr), Ha.
Qed.

Lemma nameOf_of_slash_free s : includes slash s = false -> nameOf s = s.
Proof.
  intros H. unfold nameOf. by rewrite (lastIndexOf_slash_free _ _ H).
Qed.

Lemma matchTrailingName_slash_free s :
  includes slash s = false ->
  matchTrailingName s = if truthy s then Some s else None.
Proof.
  intros H. destruct s as [|a r]; [done|].
  unfold matchTrailingName. by rewrite H.
Qed.

Lemma nameOf_cons a r :
  includes slash (String a r) = true ->
  nameOf (String a r) = if includes slash r then nameOf r else r.
Proof.
  intros H. unfold nameOf. simpl.
  destruct (includes slash r) eqn:Hr.
  - assert (0 <= lastIndexOf slash r) as Hi.
    { destruct (Z_lt_le_dec (lastIndexOf slash r) 0) as [Hn|]; [|done].
      apply lastIndexOf_none in Hn. congruence. }
    apply Z.leb_le in Hi as Hi'. rewrite Hi'.
    unfold substringFrom.
    replace (Z.to_nat (1 + lastIndexOf slash r + 1))
      with (S (Z.to_nat (lastIndexOf slash r + 1))) by lia.
    done.
  - rewrite (lastIndexOf_slash_free _ _ Hr). simpl.
    simpl in H. rewrite Hr, orb_false_r in H. by rewrite H.
Qed.

(** The regular expression [/([^/]+)$/] finds the name after the last
    slash, and nothing when that name is empty. *)
Lemma matchTrailingName_nameOf s :
  matchTrailingName s = if truthy (nameOf s) then Some (nameOf s) else None.
Proof.
  induction s as [|a r IH]; [done|].
  destruct (includes slash (String a r)) eqn:H.
  - rewrite (nameOf_cons _ _ H). simpl matchTrailingName.
    change (includes slash (String a r)) with (eqb_char a slash || includes slash r) in H.
    rewrite H. simpl.
    destruct (includes slash r) eqn:Hr; [done|].
    by apply matchTrailingName_slash_free.
  - rewrite (nameOf_of_slash_free _ H). by apply matchTrailingName_slash_free.
Qed.

Lemma segmentsOf_child d n :
  includes slash n = false -> n <> "" ->
  segmentsOf (d +:+ "/" +:+ n) = segmentsOf d ++ [n].
Proof.
  intros Hn Hne. unfold segmentsOf.
  change ("/" +:+ n) with (String slash n).
  rewrite split_app, List.filter_app, (split_without _ _ Hn). simpl.
  apply truthy_true in Hne. by rewrite Hne.
Qed.

End PathFacts.

(** ** Walking and writing the tree *)

Module TreeFacts.
Import Js JsFacts PathFacts.

Lemma getNode_walk fs path : getNode fs path = walk (segmentsOf path) (root fs).
Proof.
  unfold getNode. destruct (eqb_str path "/") eqn:E; [|done].
  apply eqb_str_true in E as ->. reflexivity.
Qed.

Lemma walk_cons s rest n :
  walk (s :: rest) n = child s n ≫= walk rest.
Proof.
  unfold child. simpl. destruct (children n) as [kids|]; [|done].
  by destruct (kids !! s).
Qed.

Lemma walk_app p q n : walk (p ++ q) n = walk p n ≫= walk q.
Proof.
  revert n. induction p as [|s p IH]; intros n; [done|].
  simpl. destruct (children n) as [kids|]; [|done].
  destruct (kids !! s) as [next|]; [|done]. apply IH.
Qed.

(** Reading back below the place that was written. *)
Lemma walk_updateAt p q f n x :
  walk p n = Some x -> walk (p ++ q) (updateAt p f n) = walk q (f x).
Proof.
  revert n. induction p as [|s p IH]; intros n H; simpl in *.
  - by inversion H.
  - destruct (children n) as [kids|] eqn:Hk; [|done].
    destruct (kids !! s) as [next|] eqn:Hs; [|done].
    simpl. rewrite lookup_insert_eq. by apply IH.
Qed.

Lemma walk_updateAt_here p f n x :
  walk p n = Some x -> walk p (updateAt p f n) = Some (f x).
Proof.
  intros H. pose proof (walk_updateAt p [] f n x H) as H'.
  by rewrite app_nil_r in H'.
Qed.

Lemma updateAt_missing p f n : walk p n = None -> updateAt p f n = n.
Proof.
  revert n. induction p as [|s p IH]; intros n H; simpl in *; [done|].
  destruct (children n) as [kids|] eqn:Hk; [|done].
  destruct (kids !! s) as [next|] eqn:Hs; [|done].
  rewrite (IH _ H). rewrite insert_id by done.
  destruct n; simpl in *. by rewrite Hk.
Qed.

(** Writing the entry [k] of the directory at [p] leaves alone every path
    that neither leads to that entry nor passes through it. *)
Lemma walk_updateAt_entry_other p k v q n :
  ¬ q `prefix_of` (p ++ [k]) -> ¬ (p ++ [k]) `prefix_of` q ->
  walk q (updateAt p (fun d => setChildren (Some (<[k := v]> (kidsOf d))) d) n)
  = walk q n.
Proof.
  revert q n. induction p as [|s p IH]; intros q n Hq Hp.
  - destruct q as [|t q]; [by destruct Hq; apply prefix_nil|].
    assert (t <> k) as Hne.
    { intros ->. apply Hp. by apply prefix_cons, prefix_nil. }
    simpl. unfold kidsOf. destruct (children n) as [kids|]; simpl.
    + by rewrite lookup_insert_ne.
    + rewrite lookup_insert_ne by done. by rewrite lookup_empty.
  - destruct q as [|t q]; [by destruct Hq; apply prefix_nil|].
    simpl. destruct (children n) as [kids|] eqn:Hk; [|by rewrite Hk].
    destruct (kids !! s) as [next|] eqn:Hs; [|by rewrite Hk].
    simpl. destruct (decide (s = t)) as [->|Hne].
    + rewrite lookup_insert_eq, Hs. apply IH.
      * intros H. apply Hq. by apply prefix_cons.
      * intros H. apply Hp. by apply prefix_cons.
    + by rewrite lookup_insert_ne.
Qed.

Lemma sameIdentity_refl a : sameIdentity a a.
Proof. by repeat split. Qed.

Lemma sameIdentity_trans a b c :
  sameIdentity a b -> sameIdentity b c -> sameIdentity a c.
Proof. unfold sameIdentity. intros (?&?&?&?&?) (?&?&?&?&?). repeat split; congruence. Qed.

Lemma updateAt_sameIdentity p f n :
  (forall x, sameIdentity (f x) x) -> sameIdentity (updateAt p f n) n.
Proof.
  intros Hf. destruct p as [|s p]; simpl; [apply Hf|].
  destruct (children n) as [kids|]; [|apply sameIdentity_refl].
  destruct (kids !! s); by repeat split.
Qed.

(** [cloneNode] commutes with the walk: the clone has the same shape, node
    for node. *)
Lemma walk_cloneNode now q n :
  walk q (cloneNode now n) = cloneNode now <$> walk q n.
Proof.
  revert n. induction q as [|s q IH]; intros n; [done|].
  destruct n as [ty c ks o pm cr md]. simpl.
  destruct ks as [kids|]; simpl; [|done].
  rewrite lookup_fmap. destruct (kids !! s) as [next|]; simpl; [|done].
  apply IH.
Qed.

Lemma cloneNode_fields now n :
  type (cloneNode now n) = type n /\ content (cloneNode now n) = content n
  /\ owner (cloneNode now n) = owner n
  /\ permissions (cloneNode now n) = permissions n
  /\ created (cloneNode now n) = created n /\ modified (cloneNode now n) = now.
Proof. by destruct n. Qed.

Lemma updateAt_ext p f g n :
  (forall x, f x = g x) -> updateAt p f n = updateAt p g n.
Proof.
  intros H. revert n. induction p as [|s p IH]; intros n; simpl; [apply H|].
  destruct (children n) as [kids|]; [|done].
  destruct (kids !! s) as [next|]; [|done]. by rewrite IH.
Qed.

(** Two writes through the same reference. *)
Lemma updateAt_updateAt p f g n :
  updateAt p g (updateAt p f n) = updateAt p (fun x => g (f x)) n.
Proof.
  revert n. induction p as [|s p IH]; intros n; simpl; [done|].
  destruct (children n) as [kids|] eqn:Hk; simpl; [|by rewrite Hk].
  destruct (kids !! s) as [next|] eqn:Hs; simpl; [|by rewrite Hk, Hs].
  rewrite lookup_insert_eq, insert_insert_eq, IH. done.
Qed.

Lemma updateAt_id p f n x : walk p n = Some x -> f x = x -> updateAt p f n = n.
Proof.
  revert n. induction p as [|s p IH]; intros n H Hf; simpl in *.
  - inversion H; by subst.
  - destruct (children n) as [kids|] eqn:Hk; [|done].
    destruct (kids !! s) as [next|] eqn:Hs; [|done].
    rewrite (IH _ H Hf), insert_id by done.
    destruct n; simpl in *. by rewrite Hk.
Qed.


Lemma child_initChildren k x : child k (initChildren x) = child k x.
Proof.
  unfold child, initChildren, kidsOf. simpl.
  destruct (children x); [done|]. simpl. by rewrite lookup_empty.
Qed.

Lemma initChildren_id x : children x <> None -> initChildren x = x.
Proof.
  intros H. destruct x as [ty ct ks o pm cr md]. simpl in H.
  unfold initChildren, kidsOf, setChildren. simpl. by destruct ks.
Qed.

Lemma sameFields_refl a : sameFields a a.
Proof. by repeat split. Qed.

(** The entry [s] of a node after a write at [r] below it. *)
Lemma child_updateAt s r f n :
  child s (updateAt r f n)
  = match r with
    | [] => child s (f n)
    | t :: r' => if decide (t = s) then updateAt r' f <$> child s n else child s n
    end.
Proof.
  destruct r as [|t r']; [done|]. simpl. unfold child.
  destruct (children n) as [kids|] eqn:Hk.
  - destruct (kids !! t) as [next|] eqn:Ht; simpl.
    + destruct (decide (t = s)) as [->|Hne].
      * by rewrite lookup_insert_eq, Ht.
      * by rewrite lookup_insert_ne.
    + rewrite Hk. destruct (decide (t = s)) as [->|Hne]; [by rewrite Ht|done].
  - rewrite Hk. by destruct (decide (t = s)).
Qed.

Lemma agree_refl a : agree a a.
Proof. destruct a as [o|]; simpl; [|done]. exists o. split; [done|apply sameFields_refl]. Qed.

(** Initialising [children] somewhere in the tree changes neither which
    paths resolve nor the fields of the nodes they resolve to. *)
Lemma walk_updateAt_initChildren q r n :
  agree (walk q (updateAt r initChildren n)) (walk q n).
Proof.
  revert r n. induction q as [|s q IH]; intros r n.
  - simpl. eexists. split; [done|].
    destruct r as [|t r]; simpl; [by repeat split|].
    destruct (children n) as [kids|]; [|apply sameFields_refl].
    destruct (kids !! t); by repeat split.
  - rewrite !walk_cons, child_updateAt. destruct r as [|t r].
    + rewrite child_initChildren. apply agree_refl.
    + destruct (decide (t = s)) as [->|Hne]; [|apply agree_refl].
      destruct (child s n) as [c|]; simpl; [apply IH|done].
Qed.

(** It leaves a node as it is unless the initialised directory is that node
    or lies below it. *)
Lemma walk_updateAt_initChildren_off q r n x :
  walk q n = Some x -> ¬ q `prefix_of` r ->
  walk q (updateAt r initChildren n) = Some x.
Proof.
  revert r n. induction q as [|s q IH]; intros r n Hx Hq.
  - destruct Hq. apply prefix_nil.
  - rewrite walk_cons in Hx. rewrite walk_cons, child_updateAt.
    destruct r as [|t r]; [by rewrite child_initChildren|].
    destruct (decide (t = s)) as [->|Hne]; [|done].
    destruct (child s n) as [c|]; simpl in *; [|done].
    apply IH; [done|]. intros H. apply Hq. by apply prefix_cons.
Qed.

End TreeFacts.

(** ** Permission strings *)

Lemma matchClasses_spec classes s :
  matchClasses classes s = true
  <-> Forall2 (fun cl a => In a cl) classes (String.list_ascii_of_string s).
Proof.
  revert s. induction classes as [|cl rest IH]; intros [|a r]; simpl.
  - split; [constructor|done].
  - split; [done|]. intros H. inversion H.
  - split; [done|]. intros H. inversion H.
  - rewrite andb_true_iff, IH, existsb_exists. split.
    + intros [(x & Hx & Hax) H]. apply JsFacts.eqb_char_true in Hax as ->.
      by constructor.
    + intros H. inversion H; subst. split; [|done].
      exists a. split; [done|apply JsFacts.eqb_char_refl].
Qed.

Example strict_mode_canonical : isStrictMode "rwxr-xr-x" = true.
Proof. reflexivity. Qed.

Example strict_mode_octal : isStrictMode "755" = false.
Proof. reflexivity. Qed.

Example strict_mode_trailing_newline : isStrictMode ("rwxr-xr-x" +:+ Js.nl) = false.
Proof. reflexivity. Qed.

(** C2: on an existing node, [changePermissions] fails and changes nothing
    when the mode is nine characters [[r-][w-][x-]] three times over, and
    for any other mode succeeds, stores the mode as the node's [permissions]
    as it is, and saves. *)
Theorem changePermissions_inverted fs st path mode node :
  getNode fs path = Some node ->
  (isStrictMode mode = true ->
     changePermissions path mode (mkMem fs st) = (false, mkMem fs st))
  /\ (isStrictMode mode = false ->
     exists fs' node',
       changePermissions path mode (mkMem fs st) = (true, mkMem fs' (Some fs'))
       /\ getNode fs' path = Some node'
       /\ node' = setPermissions mode node
       /\ permissions node' = mode).
Proof.
  intros Hnode. unfold changePermissions, bind, readFs, ret. simpl.
  rewrite Hnode. split; intros Hm; rewrite Hm; simpl; [done|].
  eexists _, _. split; [reflexivity|].
  rewrite TreeFacts.getNode_walk in *. unfold updateNode. simpl.
  rewrite (TreeFacts.walk_updateAt_here _ _ _ _ Hnode). done.
Qed.

Lemma changePermissions_inverted_witness :
  (isStrictMode "rwxrwxrwx" = true ->
     changePermissions "/tmp" "rwxrwxrwx" (mkMem (defaultFileSystem 0) None)
     = (false, mkMem (defaultFileSystem 0) None))
  /\ (isStrictMode "755" = false ->
     exists fs' node',
       changePermissions "/tmp" "755" (mkMem (defaultFileSystem 0) None)
       = (true, mkMem fs' (Some fs'))
       /\ getNode fs' "/tmp" = Some node'
       /\ node' = setPermissions "755" (dirOf "root" "rwxrwxrwx" [] 0)
       /\ permissions node' = "755").
Proof.
  split.
  - apply (changePermissions_inverted (defaultFileSystem 0) None "/tmp"
             "rwxrwxrwx" (dirOf "root" "rwxrwxrwx" [] 0)).
    reflexivity.
  - apply (changePermissions_inverted (defaultFileSystem 0) None "/tmp"
             "755" (dirOf "root" "rwxrwxrwx" [] 0)).
    reflexivity.
Defined.

(** ** Path resolution *)

(** C3: [resolvePath] is lexical.  An input that starts with a slash comes
    back as it is; [..] drops the last segment of the current path and
    leaves the root where it is, so [..] from [/] is [/]; [.] is skipped;
    any other segment is pushed; [a/../b] from [/x] is [/x/b]; a relative
    input always yields a slash followed by the joined stack; and the tree
    is never consulted. *)
Theorem resolvePath_lexical fs :
  (forall path cp, Js.startsWith "/" path = true -> resolvePath fs path cp = path)
  /\ (forall tree path cp,
        resolvePath (setRoot tree fs) path cp = resolvePath fs path cp)
  /\ (forall cp,
        resolvePath fs ".." cp = "/" +:+ Js.join "/" (removelast (segmentsOf cp)))
  /\ resolvePath fs ".." "/" = "/"
  /\ (forall cp, resolvePath fs "." cp = "/" +:+ Js.join "/" (segmentsOf cp))
  /\ resolvePath fs "a/../b" "/x" = "/x/b"
  /\ (forall stack, applySegment stack ".." = removelast stack)
  /\ applySegment [] ".." = []
  /\ (forall stack, applySegment stack "." = stack)
  /\ (forall stack seg,
        seg <> ".." -> seg <> "." -> applySegment stack seg = stack ++ [seg])
  /\ (forall path cp,
        Js.startsWith "/" path = false -> Js.startsWith "~" path = false ->
        resolvePath fs path cp
        = "/" +:+ Js.join "/"
                    (fold_left applySegment (segmentsOf path) (segmentsOf cp))).
Proof.
  assert (forall stack, applySegment stack ".." = removelast stack) as Hpop.
  { intros [|a l]; [done|]. unfold applySegment. simpl Js.eqb_str. cbv iota.
    assert ((0 <? Z.of_nat (length (a :: l))) = true) as ->; [|done].
    apply Z.ltb_lt. simpl length. lia. }
  split_and!.
  - intros path cp H. unfold resolvePath. by rewrite H.
  - reflexivity.
  - intros cp. unfold resolvePath. simpl. by rewrite Hpop.
  - reflexivity.
  - intros cp. unfold resolvePath. done.
  - reflexivity.
  - apply Hpop.
  - reflexivity.
  - done.
  - intros stack seg H1 H2. unfold applySegment.
    apply JsFacts.eqb_str_false in H1, H2. by rewrite H1, H2.
  - intros path cp H1 H2. unfold resolvePath. rewrite H1.
    assert (Js.eqb_str path "~" = false /\ Js.startsWith "~/" path = false)
      as [-> ->]; [|done].
    destruct path as [|a r]; [done|].
    simpl in H2. rewrite andb_true_r in H2. split.
    + apply JsFacts.eqb_str_false. intros [= -> ->]. done.
    + simpl. by rewrite H2.
Qed.

Lemma resolvePath_lexical_witness :
  resolvePath (defaultFileSystem 0) "/etc/hosts" "/home/ubuntu" = "/etc/hosts"
  /\ applySegment ["x"] "a" = ["x"; "a"]
  /\ resolvePath (defaultFileSystem 0) "../../../.." "/home/ubuntu" = "/".
Proof.
  pose proof (resolvePath_lexical (defaultFileSystem 0))
    as (Habs & _ & _ & _ & _ & _ & _ & _ & _ & Hpush & Hrel).
  split; [|split].
  - apply Habs. reflexivity.
  - apply (Hpush ["x"] "a"); discriminate.
  - rewrite Hrel by reflexivity. reflexivity.
Defined.

(** ** Creating and deleting nodes *)

Module StoreFacts.
Import Js JsFacts PathFacts TreeFacts.

Lemma child_kidsOf name p : child name p = kidsOf p !! name.
Proof.
  unfold child, kidsOf. destruct (children p); [done|].
  simpl. by rewrite lookup_empty.
Qed.

(** A write of an entry makes the initialisation of [children] before it
    redundant. *)
Lemma updateNode_entry_after_init path k v fs :
  updateNode path (fun d => setChildren (Some (<[k := v]> (kidsOf d))) d)
    (updateNode path initChildren fs)
  = updateNode path (fun d => setChildren (Some (<[k := v]> (kidsOf d))) d) fs.
Proof. unfold updateNode. simpl. by rewrite updateAt_updateAt. Qed.

(** [createNode], its binds unfolded. *)
Lemma createNode_unfold fs st path ty c now :
  createNode path ty c now (mkMem fs st)
  = if negb (truthy (nameOf path)) then (false, mkMem fs st)
    else
      match getNode fs (parentPathOf path) with
      | None => (false, mkMem fs st)
      | Some p =>
          if negb (isDirectory p) then (false, mkMem fs st)
          else
            match kidsOf p !! nameOf path with
            | Some _ => (false, mkMem fs st)
            | None =>
                let fs' :=
                  updateNode (parentPathOf path) (fun d =>
                    setChildren
                      (Some (<[nameOf path := freshNode ty (currentUser fs) c now]>
                               (kidsOf d))) d) fs in
                (true, mkMem fs' (Some fs'))
            end
      end.
Proof.
  cbv [createNode bind readFs ret mutate saveFileSystem fsObj stored].
  destruct (negb (truthy (nameOf path))); [done|].
  destruct (getNode fs (parentPathOf path)) as [p|] eqn:Hp; [|done].
  destruct (negb (isDirectory p)); [done|].
  rewrite getNode_walk in Hp.
  destruct (kidsOf p !! nameOf path) eqn:Hk.
  - f_equal. f_equal. unfold updateNode, setRoot. destruct fs as [r u us].
    simpl in *. f_equal. apply (updateAt_id _ _ _ p Hp). apply initChildren_id.
    unfold kidsOf in Hk. destruct (children p); [done|].
    simpl in Hk. by rewrite lookup_empty in Hk.
  - by rewrite updateNode_entry_after_init.
Qed.

(** [deleteNode], its binds unfolded. *)
Lemma deleteNode_unfold fs st path :
  deleteNode path (mkMem fs st)
  = if negb (truthy (nameOf path)) then (false, mkMem fs st)
    else
      match getNode fs (parentPathOf path) with
      | None => (false, mkMem fs st)
      | Some p =>
          if negb (isDirectory p) then (false, mkMem fs st)
          else
            match child (nameOf path) p with
            | None => (false, mkMem fs st)
            | Some _ =>
                let fs' :=
                  updateNode (parentPathOf path) (fun d =>
                    setChildren (delete (nameOf path) <$> children d) d) fs in
                (true, mkMem fs' (Some fs'))
            end
      end.
Proof.
  cbv [deleteNode bind readFs ret mutate saveFileSystem fsObj stored child].
  destruct (negb (truthy (nameOf path))); [done|].
  destruct (getNode fs (parentPathOf path)) as [p|]; [|done].
  destruct (negb (isDirectory p)); [done|].
  destruct (children p) as [kids|]; [|done].
  by destruct (kids !! nameOf path).
Qed.

Lemma deleteNode_failure path m :
  fst (deleteNode path m) = false -> snd (deleteNode path m) = m.
Proof.
  destruct m as [fs st]. rewrite deleteNode_unfold.
  destruct (negb (truthy (nameOf path))); [done|].
  destruct (getNode fs (parentPathOf path)) as [p|]; [|done].
  destruct (negb (isDirectory p)); [done|].
  by destruct (child (nameOf path) p).
Qed.

Lemma isDirectory_true n : isDirectory n = true <-> type n = directory.
Proof. unfold isDirectory. apply bool_decide_eq_true. Qed.

Lemma isDirectory_false n : isDirectory n = false <-> type n <> directory.
Proof. unfold isDirectory. apply bool_decide_eq_false. Qed.


End StoreFacts.




(** ** The root *)

Module RootFacts.
Import Js JsFacts PathFacts TreeFacts StoreFacts.

Lemma rootKept_refl m : rootKept m m.
Proof. apply sameIdentity_refl. Qed.

Lemma rootKept_trans m1 m2 m3 : rootKept m1 m2 -> rootKept m2 m3 -> rootKept m1 m3.
Proof. unfold rootKept. intros H1 H2. by eapply sameIdentity_trans. Qed.

Lemma rootKept_updateNode fs st st' path f :
  (forall x, sameIdentity (f x) x) ->
  rootKept (mkMem fs st) (mkMem (updateNode path f fs) st').
Proof. intros Hf. unfold rootKept, updateNode. simpl. by apply updateAt_sameIdentity. Qed.

Lemma createNode_rootKept path ty c now m :
  rootKept m (snd (createNode path ty c now m)).
Proof.
  destruct m as [fs st]. rewrite createNode_unfold.
  destruct (negb (truthy (nameOf path))); [apply rootKept_refl|].
  destruct (getNode fs (parentPathOf path)) as [p|]; [|apply rootKept_refl].
  destruct (negb (isDirectory p)); [apply rootKept_refl|].
  destruct (kidsOf p !! nameOf path); [apply rootKept_refl|].
  apply rootKept_updateNode. intros x. by repeat split.
Qed.

Lemma deleteNode_rootKept path m : rootKept m (snd (deleteNode path m)).
Proof.
  destruct m as [fs st]. rewrite deleteNode_unfold.
  destruct (negb (truthy (nameOf path))); [apply rootKept_refl|].
  destruct (getNode fs (parentPathOf path)) as [p|]; [|apply rootKept_refl].
  destruct (negb (isDirectory p)); [apply rootKept_refl|].
  destruct (child (nameOf path) p); [|apply rootKept_refl].
  apply rootKept_updateNode. intros x. by repeat split.
Qed.

(** [copyNode], its binds unfolded. *)
Lemma copyNode_unfold fs st src dst now :
  copyNode src dst now (mkMem fs st)
  = match getNode fs src with
    | None => (false, mkMem fs st)
    | Some sourceNode =>
        match copyTarget fs src dst with
        | None => (false, mkMem fs st)
        | Some (destDirPath, destName) =>
            match getNode fs destDirPath with
            | None => (false, mkMem fs st)
            | Some destDir =>
                if negb (isDirectory destDir) then (false, mkMem fs st)
                else
                  let sourceNow :=
                    default sourceNode
                      (getNode (updateNode destDirPath initChildren fs) src) in
                  let fs' :=
                    updateNode destDirPath (fun d =>
                      setChildren
                        (Some (<[destName := cloneNode now sourceNow]> (kidsOf d)))
                        d) fs in
                  (true, mkMem fs' (Some fs'))
            end
        end
    end.
Proof.
  cbv [copyNode bind readFs ret mutate saveFileSystem fsObj stored].
  destruct (getNode fs src) as [n|]; [|done].
  destruct (copyTarget fs src dst) as [[d k]|]; [|done].
  destruct (getNode fs d) as [dd|]; [|done].
  destruct (negb (isDirectory dd)); [done|].
  cbv zeta. by rewrite updateNode_entry_after_init.
Qed.

Lemma copyNode_rootKept src dst now m : rootKept m (snd (copyNode src dst now m)).
Proof.
  destruct m as [fs st]. rewrite copyNode_unfold.
  destruct (getNode fs src) as [n|]; [|apply rootKept_refl].
  destruct (copyTarget fs src dst) as [[d k]|]; [|apply rootKept_refl].
  destruct (getNode fs d) as [dd|]; [|apply rootKept_refl].
  destruct (negb (isDirectory dd)); [apply rootKept_refl|].
  apply rootKept_updateNode. intros x. by repeat split.
Qed.

(** [moveNode] is [copyNode] and then, if that succeeded, [deleteNode]. *)
Lemma moveNode_unfold src dst now m :
  moveNode src dst now m
  = if fst (copyNode src dst now m)
    then deleteNode src (snd (copyNode src dst now m))
    else (false, snd (copyNode src dst now m)).
Proof.
  unfold moveNode, bind, ret. destruct (copyNode src dst now m) as [[|] m']; done.
Qed.

Lemma moveNode_rootKept src dst now m : rootKept m (snd (moveNode src dst now m)).
Proof.
  rewrite moveNode_unfold. pose proof (copyNode_rootKept src dst now m) as Hc.
  destruct (fst (copyNode src dst now m)); [|done].
  eapply rootKept_trans; [exact Hc|apply deleteNode_rootKept].
Qed.

Lemma changePermissions_rootKept path mode m :
  rootKept m (snd (changePermissions path mode m)).
Proof.
  destruct m as [fs st].
  cbv [changePermissions bind readFs ret mutate saveFileSystem fsObj stored].
  destruct (getNode fs path); [|apply rootKept_refl].
  destruct (negb (isStrictMode mode)); [|apply rootKept_refl].
  apply rootKept_updateNode. intros x. by repeat split.
Qed.

Lemma runOps_rootKept ops m : rootKept m (runOps ops m).
Proof.
  revert m. induction ops as [|[op now] rest IH]; intros m; [apply rootKept_refl|].
  simpl. eapply rootKept_trans; [|apply IH].
  destruct op; simpl.
  - apply createNode_rootKept.
  - apply deleteNode_rootKept.
  - apply copyNode_rootKept.
  - apply moveNode_rootKept.
  - apply changePermissions_rootKept.
Qed.

End RootFacts.

(** C10: the root is never deleted and never replaced.  [deleteNode] on
    [/] returns false and changes nothing; [createNode] on a path whose
    name after the last slash is empty returns false and changes nothing;
    and after any sequence of [createNode], [deleteNode], [copyNode],
    [moveNode] and [changePermissions], [getNode] on [/] returns the root,
    which has kept its type, content, owner and time stamps, so that a root
    directory is still a directory. *)
Theorem root_survives :
  (forall m, deleteNode "/" m = (false, m))
  /\ (forall path ty content_ now m,
        nameOf path = "" -> createNode path ty content_ now m = (false, m))
  /\ (forall ops m,
        getNode (fsObj (runOps ops m)) "/" = Some (root (fsObj (runOps ops m)))
        /\ sameIdentity (root (fsObj (runOps ops m))) (root (fsObj m))
        /\ (type (root (fsObj m)) = directory ->
            type (root (fsObj (runOps ops m))) = directory)).
Proof.
  split_and!.
  - intros [fs st]. by rewrite StoreFacts.deleteNode_unfold.
  - intros path ty c now [fs st] Hn. rewrite StoreFacts.createNode_unfold.
    apply JsFacts.truthy_false in Hn. by rewrite Hn.
  - intros ops m. pose proof (RootFacts.runOps_rootKept ops m) as H.
    split_and!; [done|exact H|].
    destruct H as [Ht _]. congruence.
Qed.

Lemma root_survives_witness :
  createNode "/tmp/" directory "" 0 (mkMem (defaultFileSystem 0) None)
  = (false, mkMem (defaultFileSystem 0) None)
  /\ type (root (fsObj (runOps
             [(DoDelete "/", 1); (DoCopy "/etc" "/", 2); (DoMove "/" "/home", 3);
              (DoChmod "/" "0", 4); (DoCreate "/" file "x", 5)]
             (mkMem (defaultFileSystem 0) None)))) = directory.
Proof.
  destruct root_survives as (_ & Hcreate & Hroot). split.
  - apply Hcreate. reflexivity.
  - apply Hroot. reflexivity.
Defined.

(** ** The command history *)

Module HistoryFacts.

Lemma noRepeat_snoc l c :
  noRepeat l -> last l <> Some c -> noRepeat (l ++ [c]).
Proof.
  induction l as [|a [|b l] IH]; simpl; intros H Hl.
  - done.
  - split; [|done]. intros ->. by apply Hl.
  - destruct H as [Hab H]. split; [done|]. apply IH; [done|].
    intros E. apply Hl. done.
Qed.

Lemma addToHistory_commands c h :
  commands (addToHistory c h) = commands h
  \/ (commands (addToHistory c h) = commands h ++ [c]
      /\ Js.trim c <> "" /\ last (commands h) <> Some c).
Proof.
  unfold addToHistory. simpl.
  destruct (Js.truthy (Js.trim c)) eqn:Ht; simpl; [|by left].
  destruct (bool_decide (length (commands h) = 0%nat)) eqn:He; simpl.
  - right. split_and!; [done|by apply JsFacts.truthy_true|].
    apply bool_decide_eq_true in He. by destruct (commands h).
  - destruct (bool_decide (last (commands h) = Some c)) eqn:Hl; simpl; [by left|].
    right. split_and!; [done|by apply JsFacts.truthy_true|].
    by apply bool_decide_eq_false in Hl.
Qed.

Lemma addToHistory_position c h :
  position (addToHistory c h) = Z.of_nat (length (commands (addToHistory c h))).
Proof. reflexivity. Qed.

Lemma previous_commands h : commands (snd (getPreviousCommand h)) = commands h.
Proof. unfold getPreviousCommand. by destruct (bool_decide _). Qed.

Lemma previous_position h :
  position (snd (getPreviousCommand h))
  = if bool_decide (length (commands h) = 0%nat) then position h
    else if 0 <? position h then position h - 1 else position h.
Proof. unfold getPreviousCommand. by destruct (bool_decide _). Qed.

Lemma next_commands h : commands (snd (getNextCommand h)) = commands h.
Proof. unfold getNextCommand. by destruct (_ <? _). Qed.

Lemma wellFormed_step h op : wellFormed h -> wellFormed (historyStep h op).
Proof.
  intros (Hpos & Hne & Hrep & Hblank). destruct op as [c| |]; simpl.
  - unfold wellFormed. rewrite addToHistory_position.
    destruct (addToHistory_commands c h) as [-> | (-> & Ht & Hl)].
    + split_and!; try lia; done.
    + split_and!; try lia; [by apply noRepeat_snoc|].
      apply Forall_app. split; [done|]. by constructor.
  - unfold wellFormed. rewrite previous_commands, previous_position.
    destruct (bool_decide (length (commands h) = 0%nat)); [done|].
    destruct (0 <? position h) eqn:E; [|done].
    apply Z.ltb_lt in E. split_and!; try lia; done.
  - unfold wellFormed. rewrite next_commands. unfold getNextCommand.
    destruct (position h <? Z.of_nat (length (commands h)) - 1) eqn:E; simpl.
    + apply Z.ltb_lt in E. split_and!; try lia; done.
    + split_and!; try lia; done.
Qed.

Lemma wellFormed_after ops : wellFormed (historyAfter ops).
Proof.
  unfold historyAfter.
  assert (wellFormed commandHistory0) as H0.
  { unfold wellFormed. simpl. split_and!; try lia; try done. }
  revert H0. generalize commandHistory0.
  induction ops as [|op ops IH]; intros h Hh; [done|].
  simpl. apply IH. by apply wellFormed_step.
Qed.

End HistoryFacts.

(** C9: the history only grows at its end, and a command equal to the last
    entry is not entered again, so that no two neighbouring entries are ever
    equal; [getPreviousCommand] moves the cursor down by one and not below
    0; [getNextCommand] moves it up by one while an entry follows, and
    otherwise puts it one past the last entry and returns the empty
    string. *)
Theorem history_cursor :
  (forall c h, exists more,
      commands (addToHistory c h) = commands h ++ more
      /\ (more = [] \/ more = [c])
      /\ position (addToHistory c h) = Z.of_nat (length (commands (addToHistory c h))))
  /\ (forall c h, last (commands h) = Some c -> commands (addToHistory c h) = commands h)
  /\ (forall c h,
        Js.trim c <> "" -> last (commands h) <> Some c ->
        commands (addToHistory c h) = commands h ++ [c])
  /\ (forall ops, noRepeat (commands (historyAfter ops)))
  /\ (forall h,
        commands (snd (getPreviousCommand h)) = commands h
        /\ (position (snd (getPreviousCommand h)) = position h
            \/ position (snd (getPreviousCommand h)) = position h - 1)
        /\ (0 <= position h -> 0 <= position (snd (getPreviousCommand h)))
        /\ (commands h <> [] -> 0 < position h ->
            position (snd (getPreviousCommand h)) = position h - 1))
  /\ (forall h,
        let n := Z.of_nat (length (commands h)) in
        commands (snd (getNextCommand h)) = commands h
        /\ (position h < n - 1 ->
            position (snd (getNextCommand h)) = position h + 1
            /\ (0 <= position h + 1 ->
                Js.at_ (commands h) (position h + 1) = Some (fst (getNextCommand h))))
        /\ (n - 1 <= position h ->
            position (snd (getNextCommand h)) = n /\ fst (getNextCommand h) = ""))
  /\ (forall ops,
        let h := historyAfter ops in
        -1 <= position h <= Z.of_nat (length (commands h))
        /\ (commands h <> [] ->
            0 <= position h /\ 0 <= position (snd (getPreviousCommand h)))
        /\ position (snd (getNextCommand h)) <= Z.of_nat (length (commands h))).
Proof.
  split_and!.
  - intros c h. destruct (HistoryFacts.addToHistory_commands c h) as [H | (H & _)].
    + exists []. rewrite app_nil_r. split_and!; [done|by left|done].
    + exists [c]. split_and!; [done|by right|done].
  - intros c h Hl. destruct (HistoryFacts.addToHistory_commands c h) as [H | (_ & _ & H)];
      done.
  - intros c h Ht Hl. unfold addToHistory. simpl.
    apply JsFacts.truthy_true in Ht. rewrite Ht. simpl.
    assert (negb (bool_decide (last (commands h) = Some c)) = true) as ->.
    { apply negb_true_iff. by apply bool_decide_eq_false. }
    by rewrite orb_true_r.
  - intros ops. apply HistoryFacts.wellFormed_after.
  - intros h. rewrite HistoryFacts.previous_commands, HistoryFacts.previous_position.
    split_and!; [done| | |].
    + destruct (bool_decide _); [by left|]. destruct (0 <? position h); auto.
    + intros H. destruct (bool_decide _); [done|].
      destruct (0 <? position h) eqn:E; [|done]. apply Z.ltb_lt in E. lia.
    + intros Hne Hp.
      assert (bool_decide (length (commands h) = 0%nat) = false) as ->.
      { apply bool_decide_eq_false. by destruct (commands h). }
      apply Z.ltb_lt in Hp. by rewrite Hp.
  - intros h n. rewrite HistoryFacts.next_commands. unfold getNextCommand. fold n.
    split_and!; [done| |].
    + intros H. apply Z.ltb_lt in H as H'. rewrite H'. simpl. split; [done|].
      intros Hp. unfold Js.at_.
      assert ((position h + 1 <? 0) = false) as -> by (apply Z.ltb_ge; lia).
      destruct (commands h !! Z.to_nat (position h + 1)) eqn:E; [done|].
      apply lookup_ge_None in E. lia.
    + intros H. assert ((position h <? n - 1) = false) as -> by (apply Z.ltb_ge; lia).
      done.
  - intros ops h. destruct (HistoryFacts.wellFormed_after ops) as (Hpos & Hne & _).
    fold h in Hpos, Hne. split; [lia|]. split.
    + intros H. split; [by apply Hne|].
      rewrite HistoryFacts.previous_position.
      destruct (bool_decide _); [by apply Hne|].
      destruct (0 <? position h) eqn:E; [apply Z.ltb_lt in E; lia|by apply Hne].
    + unfold getNextCommand.
      destruct (position h <? Z.of_nat (length (commands h)) - 1) eqn:E; simpl; [|lia].
      apply Z.ltb_lt in E. lia.
Qed.

Lemma history_cursor_witness :
  commands (addToHistory "ls" (mkHistory ["pwd"; "ls"] 2)) = ["pwd"; "ls"]
  /\ commands (addToHistory "cd /" (mkHistory ["pwd"; "ls"] 2)) = ["pwd"; "ls"; "cd /"]
  /\ position (snd (getPreviousCommand (mkHistory ["pwd"; "ls"] 2))) = 1
  /\ position (snd (getNextCommand (mkHistory ["pwd"; "ls"] 0))) = 1
  /\ (position (snd (getNextCommand (mkHistory ["pwd"; "ls"] 1))) = 2
      /\ fst (getNextCommand (mkHistory ["pwd"; "ls"] 1)) = "")
  /\ 0 <= position (historyAfter [Add "pwd"; Previous; Previous; Previous]).
Proof.
  destruct history_cursor as (_ & Hdup & Hadd & _ & Hprev & Hnext & Hreach).
  destruct (Hprev (mkHistory ["pwd"; "ls"] 2)) as (_ & _ & _ & Hp).
  destruct (Hnext (mkHistory ["pwd"; "ls"] 0)) as (_ & Hn0 & _).
  destruct (Hnext (mkHistory ["pwd"; "ls"] 1)) as (_ & _ & Hn1).
  destruct (Hreach [Add "pwd"; Previous; Previous; Previous]) as (_ & Hr & _).
  split_and!.
  - apply Hdup. reflexivity.
  - apply Hadd; [discriminate|]. simpl. discriminate.
  - apply Hp; [discriminate|simpl; lia].
  - apply Hn0. simpl. lia.
  - apply Hn1. simpl. lia.
  - apply Hn1. simpl. lia.
  - apply Hr. discriminate.
Defined.

(** ** Copying and moving *)

Module CopyFacts.
Import Js JsFacts PathFacts TreeFacts StoreFacts RootFacts.

Lemma nodeSize_child n kids k c :
  children n = Some kids -> kids !! k = Some c -> (nodeSize c < nodeSize n)%nat.
Proof.
  intros Hk Hc. destruct n as [ty ct ks o pm cr md]. simpl in *. subst ks.
  rewrite (map_fold_delete_L _ _ k c kids); [lia| |done].
  intros; lia.
Qed.

Lemma node_ind' (P : FileSystemNode -> Prop) :
  (forall n,
     (forall kids k c, children n = Some kids -> kids !! k = Some c -> P c) -> P n) ->
  forall n, P n.
Proof.
  intros Hstep n. remember (nodeSize n) as sz eqn:Hsz. revert n Hsz.
  induction (lt_wf sz) as [sz _ IH]. intros n ->.
  apply Hstep. intros kids k c Hk Hc.
  apply (IH (nodeSize c)); [by eapply nodeSize_child|done].
Qed.

(** A clone of a clone is a clone of the original. *)
Lemma cloneNode_cloneNode t t' n : cloneNode t (cloneNode t' n) = cloneNode t n.
Proof.
  induction n as [n IH] using node_ind'.
  destruct n as [ty ct ks o pm cr md]. simpl in *. f_equal.
  destruct ks as [kids|]; simpl; [|done]. f_equal.
  rewrite <- map_fmap_compose. apply map_fmap_ext.
  intros k c Hc. simpl. by eapply IH.
Qed.

Lemma equivalent_clone now n : equivalent n (cloneNode now n).
Proof. unfold equivalent. by rewrite cloneNode_cloneNode. Qed.


(** Into an existing directory: the target is that directory and the name
    after the last slash of the source. *)
Lemma copyTarget_directory fs src dst d :
  getNode fs dst = Some d -> type d = directory ->
  copyTarget fs src dst
  = if truthy (nameOf src) then Some (dst, nameOf src) else None.
Proof.
  intros Hd Ht. unfold copyTarget. rewrite Hd. simpl.
  apply isDirectory_true in Ht. rewrite Ht, matchTrailingName_nameOf.
  by destruct (truthy (nameOf src)).
Qed.

(** Otherwise: the destination is cut at its last slash. *)
Lemma copyTarget_literal fs src dst d k :
  existsDirectory (getNode fs dst) = false ->
  copyTarget fs src dst = Some (d, k) ->
  k = nameOf dst
  /\ segmentsOf dst = segmentsOf d ++ (if truthy k then [k] else []).
Proof.
  intros Hno. unfold copyTarget. rewrite Hno.
  destruct (lastIndexOf slash dst <? 0) eqn:E; [done|].
  apply Z.ltb_ge in E. intros [= <- <-]. split; [done|].
  rewrite (segmentsOf_at_last_slash dst E). f_equal.
  rewrite substring_0 by done.
  destruct (truthy (take (Z.to_nat (lastIndexOf slash dst)) dst)) eqn:Ht; [done|].
  apply truthy_false in Ht. by rewrite Ht.
Qed.

End CopyFacts.

(** C6, as stated, fails: [/etc/] names an existing node and [/tmp] an
    existing directory, and [copyNode] refuses, the source having no name
    after its last slash. *)
Lemma copyNode_trailing_slash_source_refused :
  ~ copy_into_any_directory.
Proof.
  intros H.
  specialize (H (defaultFileSystem 0) None "/etc/" "/tmp" 0
                (default (root (defaultFileSystem 0))
                   (getNode (defaultFileSystem 0) "/etc/"))
                (default (root (defaultFileSystem 0))
                   (getNode (defaultFileSystem 0) "/tmp"))
                eq_refl eq_refl eq_refl).
  vm_compute in H. discriminate.
Qed.

(** C6, amended: for a source path that names an existing node and has a
    non-empty name after its last slash, and a destination that resolves to
    an existing directory, [copyNode] succeeds and saves, and the directory
    then holds a copy under that name.  The copy resolves the paths that
    the source resolves, and each of its nodes has the type, content, owner,
    permissions and [created] of the node it copies and [modified = now];
    it is [cloneNode now] of the source whenever the directory had its
    [children]. *)
Theorem copyNode_into_directory fs st src dst now n d :
  getNode fs src = Some n ->
  getNode fs dst = Some d -> type d = directory ->
  nameOf src <> "" ->
  exists fs' copy,
    copyNode src dst now (mkMem fs st) = (true, mkMem fs' (Some fs'))
    /\ matchTrailingName src = Some (nameOf src)
    /\ getNode fs' (dst +:+ "/" +:+ nameOf src) = Some copy
    /\ (exists d', getNode fs' dst = Some d' /\ child (nameOf src) d' = Some copy)
    /\ (children d <> None -> copy = cloneNode now n)
    /\ (forall q,
          match walk q n with
          | Some o =>
              exists c,
                walk q copy = Some c
                /\ walk (segmentsOf dst ++ nameOf src :: q) (root fs') = Some c
                /\ type c = type o /\ content c = content o /\ owner c = owner o
                /\ permissions c = permissions o /\ created c = created o
                /\ modified c = now
          | None => walk q copy = None
          end).
Proof.
  intros Hn Hd Ht Hname.
  apply JsFacts.truthy_true in Hname as Hname'.
  rewrite RootFacts.copyNode_unfold, Hn.
  rewrite (CopyFacts.copyTarget_directory fs src dst d Hd Ht), Hname', Hd.
  apply StoreFacts.isDirectory_true in Ht as Ht'. rewrite Ht'. simpl.
  rewrite TreeFacts.getNode_walk in Hd, Hn.
  (* the source as [cloneNode] reads it *)
  assert (exists n', walk (segmentsOf src)
                       (updateAt (segmentsOf dst) initChildren (root fs)) = Some n'
                     /\ forall q, agree (walk q n') (walk q n))
    as (n' & Hn' & Hagree).
  { pose proof (TreeFacts.walk_updateAt_initChildren (segmentsOf src)
                  (segmentsOf dst) (root fs)) as H0.
    rewrite Hn in H0. destruct H0 as (n' & Hn' & _). exists n'. split; [done|].
    intros q.
    pose proof (TreeFacts.walk_updateAt_initChildren (segmentsOf src ++ q)
                  (segmentsOf dst) (root fs)) as Hq.
    by rewrite !TreeFacts.walk_app, Hn', Hn in Hq. }
  rewrite (TreeFacts.getNode_walk (updateNode dst initChildren fs)).
  unfold updateNode at 1. simpl root. rewrite Hn'. simpl default.
  set (f := fun d0 => setChildren
                        (Some (<[nameOf src := cloneNode now n']> (kidsOf d0))) d0).
  exists (updateNode dst f fs), (cloneNode now n').
  assert (forall q,
            walk (segmentsOf dst ++ nameOf src :: q)
                 (root (updateNode dst f fs))
            = walk q (cloneNode now n')) as Hbelow.
  { intros q. unfold updateNode. simpl.
    rewrite (TreeFacts.walk_updateAt _ _ _ _ _ Hd).
    unfold f. simpl. by rewrite lookup_insert_eq. }
  split_and!.
  - done.
  - by rewrite PathFacts.matchTrailingName_nameOf, Hname'.
  - rewrite TreeFacts.getNode_walk.
    rewrite PathFacts.segmentsOf_child
      by (done || apply PathFacts.nameOf_slash_free).
    apply (Hbelow []).
  - exists (f d). split.
    + rewrite TreeFacts.getNode_walk. unfold updateNode. simpl.
      by apply TreeFacts.walk_updateAt_here.
    + unfold child, f. simpl. by rewrite lookup_insert_eq.
  - intros Hkids. f_equal.
    rewrite (TreeFacts.updateAt_id _ _ _ d Hd) in Hn'
      by (by apply TreeFacts.initChildren_id).
    congruence.
  - intros q. specialize (Hagree q). rewrite Hbelow, TreeFacts.walk_cloneNode.
    destruct (walk q n) as [o|]; simpl in Hagree.
    + destruct Hagree as (o' & -> & Hf). exists (cloneNode now o').
      pose proof (TreeFacts.cloneNode_fields now o') as Hc.
      unfold sameFields in Hf. simpl.
      split_and!; try done; destruct Hc as (?&?&?&?&?&?);
        destruct Hf as (?&?&?&?&?&?); congruence.
    + by rewrite Hagree.
Qed.

Lemma copyNode_into_directory_witness :
  exists fs' copy,
    copyNode "/etc" "/tmp" 7 (mkMem (defaultFileSystem 0) None)
    = (true, mkMem fs' (Some fs'))
    /\ getNode fs' "/tmp/etc" = Some copy
    /\ walk ["hosts"] copy
       = Some (setModified 7
                 (fileOf "root" "rw-r--r--"
                    (Js.join Js.nl
                       ["127.0.0.1 localhost"; "127.0.1.1 ubuntu-terminal"])
                    0)).
Proof.
  destruct (getNode (defaultFileSystem 0) "/etc") as [n|] eqn:Hn;
    [|vm_compute in Hn; discriminate].
  destruct (getNode (defaultFileSystem 0) "/tmp") as [d|] eqn:Hd;
    [|vm_compute in Hd; discriminate].
  assert (type d = directory /\ children d <> None) as [Ht Hk].
  { vm_compute in Hd. inversion Hd. by split. }
  assert (nameOf "/etc" <> "") as Hname by (vm_compute; discriminate).
  destruct (copyNode_into_directory (defaultFileSystem 0) None "/etc" "/tmp" 7
              n d Hn Hd Ht Hname)
    as (fs' & copy & Hcopy & _ & Hget & _ & Hclone & _).
  exists fs', copy. split_and!; [exact Hcopy|exact Hget|].
  rewrite (Hclone Hk). vm_compute in Hn. inversion Hn. reflexivity.
Defined.

(** C7, as stated, fails: moving [/tmp/tmp] into [/] writes the clone over
    [/tmp], the directory that held the source; the delete then fails and
    the source path resolves to nothing. *)
Lemma moveNode_over_own_parent_loses_source :
  ~ moveNode_failed_delete_keeps_both.
Proof.
  intros H.
  destruct (H "/tmp/tmp" "/" 2 withTmpTmp eq_refl eq_refl)
    as (_ & a & b & Ha & _).
  vm_compute in Ha. discriminate.
Qed.

(** Another failure of the same sentence: moving [/] to [/x] leaves both
    paths resolving, the root with the entry [x] and [/x] without it. *)
Lemma moveNode_root_into_itself :
  let m := mkMem (defaultFileSystem 0) None in
  fst (copyNode "/" "/x" 2 m) = true
  /\ fst (deleteNode "/" (snd (copyNode "/" "/x" 2 m))) = false
  /\ exists a b,
       getNode (fsObj (snd (moveNode "/" "/x" 2 m))) "/" = Some a
       /\ getNode (fsObj (snd (moveNode "/" "/x" 2 m))) "/x" = Some b
       /\ ~ equivalent a b.
Proof.
  intros m. split_and!; [reflexivity|reflexivity|].
  eexists _, _. split_and!; [reflexivity|reflexivity|].
  unfold equivalent. intros E.
  apply (f_equal (walk ["x"])) in E. vm_compute in E. discriminate.
Qed.

(** C7, amended: [moveNode] is [copyNode] followed, when the copy
    succeeded, by [deleteNode] on the source, and succeeds exactly when both
    do.  When the copy succeeds and the delete fails, [moveNode] returns
    false and leaves the store as the copy left it.  If moreover the
    destination is not an existing directory, and the two paths are the same
    node or neither leads through the other, then both still resolve: the
    destination to the clone of the source node, the source to an
    equivalent node, which is the source node itself when the paths
    differ. *)
Theorem moveNode_copy_then_delete src dst now m :
  let copied := copyNode src dst now m in
  let deleted := deleteNode src (snd copied) in
  moveNode src dst now m = (if fst copied then deleted else (false, snd copied))
  /\ (fst (moveNode src dst now m) = true
      <-> fst copied = true /\ fst deleted = true)
  /\ (fst copied = true -> fst deleted = false ->
      moveNode src dst now m = (false, snd copied)
      /\ (existsDirectory (getNode (fsObj m) dst) = false ->
          segmentsOf src = segmentsOf dst
          \/ (~ segmentsOf src `prefix_of` segmentsOf dst
              /\ ~ segmentsOf dst `prefix_of` segmentsOf src) ->
          exists n a,
            getNode (fsObj m) src = Some n
            /\ getNode (fsObj (snd (moveNode src dst now m))) src = Some a
            /\ getNode (fsObj (snd (moveNode src dst now m))) dst
               = Some (cloneNode now n)
            /\ equivalent a (cloneNode now n)
            /\ (segmentsOf src <> segmentsOf dst -> a = n))).
Proof.
  intros copied deleted.
  assert (moveNode src dst now m
          = (if fst copied then deleted else (false, snd copied))) as Hmv
    by apply RootFacts.moveNode_unfold.
  split; [exact Hmv|]. split.
  - rewrite Hmv. destruct (fst copied); [|split; [done|by intros [? _]]].
    split; [done|by intros [_ ?]].
  - intros Hc Hdel.
    assert (moveNode src dst now m = (false, snd copied)) as Hres.
    { rewrite Hmv, Hc. pose proof (StoreFacts.deleteNode_failure _ _ Hdel) as Hsame.
      fold deleted in Hsame. destruct deleted as [b m']. simpl in *. by subst. }
    split; [exact Hres|].
    intros Hdir Hpaths. rewrite Hres. simpl.
    destruct m as [fs st]. simpl in Hdir.
    unfold copied in *. clear Hres Hmv Hdel deleted copied.
    rewrite RootFacts.copyNode_unfold in *.
    destruct (getNode fs src) as [n|] eqn:Hn; [|done].
    destruct (copyTarget fs src dst) as [[d k]|] eqn:Htarget; [|done].
    destruct (getNode fs d) as [dd|] eqn:Hd; [|done].
    destruct (isDirectory dd) eqn:Hdd; [|done]. simpl.
    destruct (CopyFacts.copyTarget_literal fs src dst d k Hdir Htarget)
      as [Hk Hsegs].
    rewrite TreeFacts.getNode_walk in Hd, Hn.
    assert (Js.truthy k = true) as Hkt.
    { destruct (Js.truthy k) eqn:E; [done|]. rewrite app_nil_r in Hsegs.
      rewrite TreeFacts.getNode_walk, Hsegs, Hd in Hdir. simpl in Hdir.
      congruence. }
    rewrite Hkt in Hsegs.
    assert (~ segmentsOf src `prefix_of` segmentsOf d) as Hoff.
    { intros Hpre. destruct Hpaths as [Heq | [Hsd _]].
      - rewrite Heq, Hsegs in Hpre. apply prefix_length in Hpre.
        rewrite length_app in Hpre. simpl in Hpre. lia.
      - apply Hsd. rewrite Hsegs. by apply prefix_app_r. }
    assert (getNode (updateNode d initChildren fs) src = Some n) as ->.
    { rewrite TreeFacts.getNode_walk. unfold updateNode. simpl.
      by apply TreeFacts.walk_updateAt_initChildren_off. }
    simpl default.
    assert (walk (segmentsOf dst)
              (updateAt (segmentsOf d)
                 (fun d0 => setChildren
                              (Some (<[k := cloneNode now n]> (kidsOf d0))) d0)
                 (root fs))
            = Some (cloneNode now n)) as Hdst.
    { rewrite Hsegs, (TreeFacts.walk_updateAt _ _ _ _ _ Hd). simpl.
      by rewrite lookup_insert_eq. }
    rewrite !TreeFacts.getNode_walk. unfold updateNode. simpl.
    destruct Hpaths as [Heq | [Hsd Hds]].
    + exists n, (cloneNode now n). split; [done|]. rewrite Heq.
      split_and!; [done|done|reflexivity|done].
    + exists n, n. split_and!.
      * done.
      * rewrite TreeFacts.walk_updateAt_entry_other; [done| |]; by rewrite <- Hsegs.
      * done.
      * apply CopyFacts.equivalent_clone.
      * done.
Qed.

Lemma moveNode_copy_then_delete_witness :
  let m := mkMem (defaultFileSystem 0) None in
  moveNode "/etc/" "/etc2" 9 m = (false, snd (copyNode "/etc/" "/etc2" 9 m))
  /\ exists n a,
       getNode (fsObj m) "/etc/" = Some n
       /\ getNode (fsObj (snd (moveNode "/etc/" "/etc2" 9 m))) "/etc/" = Some a
       /\ getNode (fsObj (snd (moveNode "/etc/" "/etc2" 9 m))) "/etc2"
          = Some (cloneNode 9 n)
       /\ equivalent a (cloneNode 9 n)
       /\ (segmentsOf "/etc/" <> segmentsOf "/etc2" -> a = n).
Proof.
  intros m.
  destruct (moveNode_copy_then_delete "/etc/" "/etc2" 9 m) as (_ & _ & H).
  destruct (H eq_refl eq_refl) as [Hres Hboth].
  split; [exact Hres|].
  apply Hboth; [reflexivity|].
  right. split; intros [k Hk]; vm_compute in Hk; discriminate.
Defined.

(** ** The sudo prompt *)

Module SudoFacts.
Import Js JsFacts.

Lemma given_nonempty pw : pw <> "" -> given (Some pw) = true.
Proof. intros H. simpl. by apply truthy_true. Qed.

Lemma setCurrentUser_back fs :
  setCurrentUser (currentUser fs) (setCurrentUser "root" fs) = fs.
Proof. by destruct fs. Qed.

Lemma withLoaded_keeps_default {A} (body : M A) w :
  localStorage w <> None -> defaultObj (snd (withLoaded body w)) = defaultObj w.
Proof.
  intros H. unfold withLoaded.
  destruct (body _) as [a m]. simpl. by destruct (localStorage w).
Qed.

(** Whatever the buffered command does, the snapshot that a successful
    sudo leaves in [localStorage] is the one that was loaded before the
    command ran. *)
Lemma sudo_leaves_loaded_snapshot printed command st pw now w :
  sudoMode st = true -> pw <> "" ->
  authenticateUser (loadFileSystem w) "root" pw = true ->
  localStorage (snd (processCommand printed command st (Some pw) now w))
  = Some (loadFileSystem w).
Proof.
  intros Hs Hpw Hauth. unfold processCommand.
  rewrite Hs, (given_nonempty pw Hpw). simpl. rewrite Hauth.
  destruct (processCommandInternal _ _ _ _ _) as [result w2] eqn:Hrun. simpl.
  f_equal. destruct (bool_decide (localStorage w = None)) eqn:Hd.
  - assert (defaultObj w2 = setCurrentUser "root" (loadFileSystem w)) as ->.
    { change w2 with (snd (result, w2)). rewrite <- Hrun.
      unfold processCommandInternal. by rewrite withLoaded_keeps_default. }
    apply setCurrentUser_back.
  - apply setCurrentUser_back.
Qed.

End SudoFacts.

(** C1: as [ubuntu], [sudo rm -r /etc] and then the root password.  The
    buffered command does run as root on the snapshot it loads, and [/etc]
    is gone from what it saves; but [processCommand] then saves the object
    it had loaded before, with the user set back: the store that remains
    is the one from before the command, [/etc] included, and the current
    user is [ubuntu]. *)
Theorem sudo_rm_etc_is_not_persisted printed t0 now1 now2 :
  let w0 := mkWorld None (defaultFileSystem t0) in
  let s0 := mkSession initialTerminalState w0 commandHistory0 in
  let s1 := handleEnter printed "sudo rm -r /etc" now1 s0 in
  let s2 := handleEnter printed "toor" now2 s1 in
  let asRoot := setCurrentUser "root" (defaultFileSystem t0) in
  let inner :=
    processCommandInternal printed "rm -r /etc" (term s1) now2
      (mkWorld (Some asRoot) asRoot) in
  (sudoMode (term s1) = true /\ sudoCommand (term s1) = "rm -r /etc"
   /\ world s1 = w0)
  /\ (r_output (fst inner) = []
      /\ getNode (loadFileSystem (snd inner)) "/etc" = None
      /\ currentUser (loadFileSystem (snd inner)) = "root")
  /\ (sudoMode (term s2) = false /\ sudoCommand (term s2) = ""
      /\ localStorage (world s2) = Some (defaultFileSystem t0)
      /\ getNode (loadFileSystem (world s2)) "/etc"
         = getNode (defaultFileSystem t0) "/etc"
      /\ (exists etc, getNode (loadFileSystem (world s2)) "/etc" = Some etc)
      /\ currentUser (loadFileSystem (world s2)) = "ubuntu").
Proof.
  intros w0 s0 s1 s2 asRoot inner.
  assert (localStorage (world s2) = Some (defaultFileSystem t0)) as Hls.
  { assert (world s1 = w0) as Hw by reflexivity.
    unfold s2, handleEnter. rewrite Hw.
    change (isPasswordMode (term s1) || sudoMode (term s1)) with true.
    cbv iota. change (Js.trim "toor") with "toor".
    pose proof (SudoFacts.sudo_leaves_loaded_snapshot printed "toor" (term s1)
                  "toor" now2 w0 eq_refl) as H.
    destruct (processCommand _ _ _ _ _ _) as [result w']. simpl in *.
    apply H; [discriminate|reflexivity]. }
  split; [by vm_compute|]. split; [by vm_compute|].
  unfold loadFileSystem. rewrite Hls. simpl.
  split_and!; try done; by vm_compute; eexists.
Qed.

(** C4, as stated, fails: the empty line is not the root password, and it
    is answered with no output at all. *)
Lemma sudo_empty_line_is_silent :
  ~ sudo_refuses_every_wrong_line.
Proof.
  intros H.
  destruct (H (fun _ _ _ _ _ => []) ""
              (mkState "/home/ubuntu" [] "" 0 false "" true "rm -r /etc") 0
              (mkWorld None (defaultFileSystem 0)) eq_refl eq_refl)
    as [Hout _].
  vm_compute in Hout. discriminate.
Qed.

(** C4, amended: at the sudo prompt, a non-empty line that is not the root
    password is answered with [Sorry, try again.]; the result turns the
    sudo mode off and clears the buffered command; the buffered command
    does not run; and [localStorage] and the default object, so the tree,
    the users and the current user, are as before.  The Enter handler then
    shows the line and the answer, and is back at the prompt with the same
    path and the same history. *)
Theorem sudo_wrong_password printed command st pw now w :
  sudoMode st = true -> pw <> "" ->
  authenticateUser (loadFileSystem w) "root" pw = false ->
  processCommand printed command st (Some pw) now w
  = (mkResult ["Sorry, try again."] None None None (Some false) (Some ""), w)
  /\ forall line h,
       Js.trim line = pw ->
       let s' := handleEnter printed line now (mkSession st w h) in
       world s' = w
       /\ history s' = h
       /\ sudoMode (term s') = false
       /\ sudoCommand (term s') = ""
       /\ isPasswordMode (term s') = false
       /\ currentPath (term s') = currentPath st
       /\ output (term s')
          = output st
              ++ [if isPasswordMode st then repeatStar (Z.to_nat (Js.strlen pw))
                  else pw;
                  "Sorry, try again."].
Proof.
  intros Hs Hpw Hauth.
  assert (forall c,
            processCommand printed c st (Some pw) now w
            = (mkResult ["Sorry, try again."] None None None (Some false) (Some ""),
               w)) as Hrun.
  { intros c. unfold processCommand.
    rewrite Hs, (SudoFacts.given_nonempty pw Hpw). simpl. by rewrite Hauth. }
  split; [apply Hrun|].
  intros line h Hline. unfold handleEnter. simpl term. simpl world.
  rewrite Hs, orb_true_r, Hline, Hrun. simpl.
  by split_and!.
Qed.

Lemma sudo_wrong_password_witness :
  let st := mkState "/home/ubuntu" [] "" 0 false "" true "rm -r /etc" in
  let w := mkWorld None (defaultFileSystem 0) in
  processCommand (fun _ _ _ _ _ => []) "letmein" st (Some "letmein") 0 w
  = (mkResult ["Sorry, try again."] None None None (Some false) (Some ""), w).
Proof.
  intros st w.
  apply (sudo_wrong_password (fun _ _ _ _ _ => []) "letmein" st "letmein" 0 w).
  - reflexivity.
  - discriminate.
  - reflexivity.
Defined.

(** ** Redirected echo *)

(** The two end-to-end scenarios of the specification. *)
Example echo_then_cat printed t0 now1 now2 now3 now4 :
  let w0 := mkWorld None (defaultFileSystem t0) in
  let st := initialTerminalState in
  let r1 := processCommand printed "echo hello > a.txt" st None now1 w0 in
  let r2 := processCommand printed "cat a.txt" st None now2 (snd r1) in
  let r3 := processCommand printed "echo world >> a.txt" st None now3 (snd r2) in
  let r4 := processCommand printed "cat a.txt" st None now4 (snd r3) in
  r_output (fst r1) = [] /\ r_output (fst r2) = ["hello"]
  /\ r_output (fst r3) = [] /\ r_output (fst r4) = ["hello"; "world"].
Proof. by vm_compute. Qed.

(** The write branch and the append branch on the default store. *)
Example echo_on_directories printed t0 now :
  let w0 := mkWorld None (defaultFileSystem t0) in
  let st := initialTerminalState in
  let run line := processCommand printed line st None now w0 in
  (existsDirectory (getNode (loadFileSystem w0) "/tmp/") = true
   /\ existsDirectory (getNode (loadFileSystem w0) "/") = true)
  /\ (fst (run "echo hi > /tmp/") = out []
      /\ fst (run "echo hi > /") = out []
      /\ loadFileSystem (snd (run "echo hi > /tmp/")) = defaultFileSystem t0
      /\ loadFileSystem (snd (run "echo hi > /")) = defaultFileSystem t0)
  /\ (fst (run "echo hi >> /tmp/") = out ["echo: /tmp/: Is a directory"]
      /\ fst (run "echo hi >> /") = out ["echo: /: Is a directory"]
      /\ fst (run "echo hi > /tmp") = out ["echo: /tmp: Is a directory"]).
Proof. by vm_compute. Qed.

(** C8: [echo text > target] where the target resolves to a directory and
    its path has nothing after the last slash, as [/tmp/] and [/] have.
    The write branch looks the target up as the entry of the empty name in
    the directory itself, finds none, fails to create one, saves and
    returns no output: there is no error, and the tree is as it was.  The
    append branch, which looks the target up with [getNode], reports the
    directory. *)
Theorem echo_write_to_directory_is_silent fs st state args content_ redirectPath now d :
  let target := resolvePath fs redirectPath (currentPath state) in
  nameOf target = "" ->
  getNode fs target = Some d -> type d = directory ->
  child "" d = None -> children d <> None ->
  existsDirectory (getNode fs target) = true
  /\ echoWrite content_ redirectPath state now (mkMem fs st)
     = (out [], mkMem fs (Some fs))
  /\ echoAppend args content_ redirectPath state now (mkMem fs st)
     = (out ["echo: " +:+ redirectPath +:+ ": Is a directory"], mkMem fs st).
Proof.
  intros target Hname Hd Ht Hnone Hkids.
  apply StoreFacts.isDirectory_true in Ht as Ht'.
  assert (getNode fs (parentPathOf target) = Some d) as Hp.
  { rewrite TreeFacts.getNode_walk in *.
    rewrite (PathFacts.segmentsOf_parent_name target) in Hd.
    apply JsFacts.truthy_false in Hname. rewrite Hname in Hd.
    by rewrite app_nil_r in Hd. }
  split_and!.
  - rewrite Hd. simpl. done.
  - cbv [echoWrite bind readFs ret mutate saveFileSystem fsObj stored].
    fold target. rewrite Hp, Ht'.
    rewrite <- StoreFacts.child_kidsOf, Hname, Hnone. cbn [negb fsObj stored].
    assert (updateNode (parentPathOf target) initChildren fs = fs) as ->.
    { unfold updateNode, setRoot. destruct fs as [r u us]. simpl in *. f_equal.
      rewrite TreeFacts.getNode_walk in Hp. simpl in Hp.
      apply (TreeFacts.updateAt_id _ _ _ d Hp).
      by apply TreeFacts.initChildren_id. }
    rewrite StoreFacts.createNode_unfold, Hname. simpl. done.
  - cbv [echoAppend bind readFs ret mutate saveFileSystem fsObj stored].
    fold target. rewrite Hd.
    assert (isFile d = false) as ->; [|done].
    unfold isFile. apply bool_decide_eq_false. rewrite Ht. discriminate.
Qed.

Lemma echo_write_to_directory_is_silent_witness :
  let w0 := mkWorld None (defaultFileSystem 0) in
  let st := initialTerminalState in
  processCommand (fun _ _ _ _ _ => []) "echo hi > /tmp/" st None 1 w0
  = withLoaded (echoWrite "hi" "/tmp/" st 1) w0
  /\ existsDirectory (getNode (defaultFileSystem 0) "/tmp/") = true
  /\ echoWrite "hi" "/tmp/" st 1 (mkMem (defaultFileSystem 0) None)
     = (out [], mkMem (defaultFileSystem 0) (Some (defaultFileSystem 0)))
  /\ echoAppend ["echo"; "hi"; ">>"; "/tmp/"] "hi" "/tmp/" st 1
       (mkMem (defaultFileSystem 0) None)
     = (out ["echo: /tmp/: Is a directory"], mkMem (defaultFileSystem 0) None).
Proof.
  intros w0 st. split; [reflexivity|].
  apply (echo_write_to_directory_is_silent (defaultFileSystem 0) None st
           ["echo"; "hi"; ">>"; "/tmp/"] "hi" "/tmp/" 1
           (dirOf "root" "rwxrwxrwx" [] 0)).
  - reflexivity.
  - reflexivity.
  - reflexivity.
  - reflexivity.
  - discriminate.
Defined.

(** * Further properties of the storage operations *)

Module MoreFacts.
Import Js JsFacts PathFacts TreeFacts StoreFacts RootFacts.

Lemma segmentsOf_trailing_slash p : segmentsOf (p +:+ "/") = segmentsOf p.
Proof.
  unfold segmentsOf. change (p +:+ "/") with (p +:+ String slash "").
  rewrite split_app, List.filter_app. simpl. by rewrite app_nil_r.
Qed.

Lemma segmentsOf_leading_slash p : segmentsOf ("/" +:+ p) = segmentsOf p.
Proof. reflexivity. Qed.

Lemma split_free c s : Forall (fun t => includes c t = false) (split c s).
Proof.
  induction s as [|a r IH]; simpl; [by repeat constructor|].
  destruct (eqb_char a c) eqn:E; [by constructor|].
  destruct (split c r) as [|h t]; [by repeat constructor; simpl; rewrite E|].
  inversion IH; subst. constructor; [|done]. simpl. by rewrite E.
Qed.

Lemma segmentsOf_segmentLike p : Forall segmentLike (segmentsOf p).
Proof.
  unfold segmentsOf. pose proof (split_free slash p) as H.
  induction H as [|t l Ht Hl IH]; simpl; [constructor|].
  destruct (truthy t) eqn:E; [|done].
  constructor; [|done]. split; [by apply truthy_true|done].
Qed.

(** Joining segments and splitting again. *)
Lemma segmentsOf_join l :
  Forall segmentLike l -> segmentsOf ("/" +:+ join "/" l) = l.
Proof.
  intros H. rewrite segmentsOf_leading_slash.
  induction H as [|t l [Hne Hfree] Hl IH]; [done|].
  destruct l as [|u l'].
  - simpl. rewrite (segmentsOf_slash_free _ Hfree).
    apply truthy_true in Hne. by rewrite Hne.
  - change (join "/" (t :: u :: l')) with (t +:+ String slash (join "/" (u :: l'))).
    unfold segmentsOf in *. rewrite split_app, List.filter_app, IH.
    rewrite (split_without _ _ Hfree). simpl.
    apply truthy_true in Hne. by rewrite Hne.
Qed.

Lemma walk_prefix p q n x : walk (p ++ q) n = Some x -> exists y, walk p n = Some y.
Proof.
  rewrite walk_app. destruct (walk p n) as [y|]; [by exists y|done].
Qed.

(** A write at [p] that keeps every entry but [k] of the node it writes
    leaves alone every path that neither leads to that entry nor passes
    through it. *)
Lemma walk_updateAt_touching p k f q n :
  (forall d k', k' <> k -> child k' (f d) = child k' d) ->
  ¬ q `prefix_of` (p ++ [k]) -> ¬ (p ++ [k]) `prefix_of` q ->
  walk q (updateAt p f n) = walk q n.
Proof.
  intros Hf. revert q n. induction p as [|s p IH]; intros q n Hq Hp.
  - destruct q as [|t q]; [by destruct Hq; apply prefix_nil|].
    assert (t <> k) as Hne.
    { intros ->. apply Hp. by apply prefix_cons, prefix_nil. }
    rewrite !walk_cons. simpl updateAt. by rewrite Hf.
  - destruct q as [|t q]; [by destruct Hq; apply prefix_nil|].
    rewrite !walk_cons, child_updateAt.
    destruct (decide (s = t)) as [->|Hne]; [|done].
    destruct (child t n) as [c|]; simpl; [|done].
    apply IH.
    + intros H. apply Hq. by apply prefix_cons.
    + intros H. apply Hp. by apply prefix_cons.
Qed.

(** A write at [r] that keeps the entries of the node it writes: every path
    resolves as before, to [f] of the old node at [r] and elsewhere to the
    old node with, at most, other [children]. *)
Lemma walk_updateAt_shape f q r n :
  (forall x k, child k (f x) = child k x) ->
  match walk q n with
  | Some o =>
      exists o', walk q (updateAt r f n) = Some o'
                 /\ if decide (q = r) then o' = f o
                    else exists ks, o' = setChildren ks o
  | None => walk q (updateAt r f n) = None
  end.
Proof.
  intros Hf. revert r n. induction q as [|s q IH]; intros r n.
  - simpl. destruct r as [|t r]; simpl.
    + by exists (f n).
    + destruct (children n) as [kids|] eqn:Hk.
      * destruct (kids !! t).
        -- eexists. split; [done|]. by eexists.
        -- exists n. split; [done|]. exists (children n). by destruct n.
      * exists n. split; [done|]. exists (children n). by destruct n.
  - rewrite !walk_cons, child_updateAt. destruct r as [|t r].
    + rewrite Hf. destruct (child s n) as [c|]; simpl; [|done].
      destruct (walk q c) as [o|]; [|done].
      exists o. split; [done|]. exists (children o). by destruct o.
    + destruct (decide (t = s)) as [->|Hne].
      * destruct (child s n) as [c|]; simpl; [|done].
        specialize (IH r c). destruct (walk q c) as [o|]; [|done].
        destruct IH as (o' & Ho' & Hshape). exists o'. split; [done|].
        destruct (decide (q = r)) as [->|Hqr].
        -- by rewrite decide_True.
        -- rewrite decide_False; [done|]. by intros [= ?].
      * destruct (child s n) as [c|]; simpl; [|done].
        destruct (walk q c) as [o|]; [|done].
        exists o. split; [|rewrite decide_False by (by intros [= ? ?]);
                            exists (children o); by destruct o].
        done.
Qed.

End MoreFacts.

(** X1: [getNode] reads a path through its non-empty segments only: two
    paths with the same segments resolve alike, so a trailing slash changes
    nothing and the empty path is the root; and when a path resolves, so
    does its parent path, to a node that holds the resolved node under the
    name after the last slash. *)
Theorem getNode_reads_segments fs :
  (forall p q, segmentsOf p = segmentsOf q -> getNode fs p = getNode fs q)
  /\ (forall p, getNode fs (p +:+ "/") = getNode fs p)
  /\ getNode fs "" = Some (root fs)
  /\ (forall p x,
        getNode fs p = Some x ->
        exists y, getNode fs (parentPathOf p) = Some y
                  /\ (nameOf p <> "" -> child (nameOf p) y = Some x)
                  /\ (nameOf p = "" -> y = x)).
Proof.
  split_and!.
  - intros p q H. by rewrite !TreeFacts.getNode_walk, H.
  - intros p. by rewrite !TreeFacts.getNode_walk, MoreFacts.segmentsOf_trailing_slash.
  - reflexivity.
  - intros p x. rewrite !TreeFacts.getNode_walk.
    rewrite (PathFacts.segmentsOf_parent_name p), TreeFacts.walk_app.
    destruct (walk (segmentsOf (parentPathOf p)) (root fs)) as [y|]; [|done].
    simpl. intros Hx. exists y. split; [done|].
    destruct (Js.truthy (nameOf p)) eqn:E.
    + apply JsFacts.truthy_true in E. split; [|done]. intros _.
      rewrite TreeFacts.walk_cons in Hx.
      by destruct (child (nameOf p) y); simpl in Hx; simplify_eq.
    + apply JsFacts.truthy_false in E. split; [done|]. intros _.
      simpl in Hx. by simplify_eq.
Qed.

Lemma getNode_reads_segments_witness :
  getNode (defaultFileSystem 0) "//etc///hosts/" = getNode (defaultFileSystem 0) "/etc/hosts"
  /\ exists y, getNode (defaultFileSystem 0) (parentPathOf "/etc/hosts") = Some y
               /\ (nameOf "/etc/hosts" <> "" ->
                   child (nameOf "/etc/hosts") y
                   = Some (fileOf "root" "rw-r--r--"
                             (Js.join Js.nl
                                ["127.0.0.1 localhost"; "127.0.1.1 ubuntu-terminal"])
                             0))
               /\ (nameOf "/etc/hosts" = "" ->
                   y = fileOf "root" "rw-r--r--"
                         (Js.join Js.nl
                            ["127.0.0.1 localhost"; "127.0.1.1 ubuntu-terminal"])
                         0).
Proof.
  destruct (getNode_reads_segments (defaultFileSystem 0)) as (Hseg & _ & _ & Hparent).
  split.
  - apply Hseg. reflexivity.
  - apply Hparent. reflexivity.
Defined.

Module DeleteFacts.
Import Js JsFacts PathFacts TreeFacts StoreFacts RootFacts MoreFacts.

(** [delete node.children[name]] as a function of the node. *)
Lemma child_after_delete name k d :
  child k (setChildren (delete name <$> children d) d)
  = if decide (name = k) then None else child k d.
Proof.
  unfold child. simpl. destruct (children d) as [kids|]; simpl.
  - apply lookup_delete.
  - by destruct (decide (name = k)).
Qed.

(** What a successful [deleteNode] leaves. *)
Lemma deleteNode_effect fs st path p x :
  nameOf path <> "" ->
  getNode fs (parentPathOf path) = Some p -> type p = directory ->
  child (nameOf path) p = Some x ->
  let fs' := updateNode (parentPathOf path) (fun d =>
               setChildren (delete (nameOf path) <$> children d) d) fs in
  deleteNode path (mkMem fs st) = (true, mkMem fs' (Some fs'))
  /\ getNode fs' (parentPathOf path)
     = Some (setChildren (delete (nameOf path) <$> children p) p)
  /\ (forall q, walk (segmentsOf path ++ q) (root fs') = None)
  /\ (forall q,
        ¬ q `prefix_of` segmentsOf path -> ¬ segmentsOf path `prefix_of` q ->
        walk q (root fs') = walk q (root fs)).
Proof.
  intros Hname Hp Ht Hx fs'.
  apply truthy_true in Hname as Hname'. apply isDirectory_true in Ht as Ht'.
  assert (segmentsOf path = segmentsOf (parentPathOf path) ++ [nameOf path]) as Hsegs.
  { by rewrite (segmentsOf_parent_name path) at 1; rewrite Hname'. }
  rewrite getNode_walk in Hp.
  split_and!.
  - by rewrite deleteNode_unfold, Hname', getNode_walk, Hp, Ht', Hx.
  - rewrite getNode_walk. unfold fs', updateNode. simpl.
    by rewrite (walk_updateAt_here _ _ _ _ Hp).
  - intros q. unfold fs', updateNode. simpl.
    rewrite Hsegs, <- app_assoc, (walk_updateAt _ _ _ _ _ Hp).
    simpl app. rewrite walk_cons, child_after_delete. by rewrite decide_True.
  - intros q Hq1 Hq2. unfold fs', updateNode. simpl.
    apply (walk_updateAt_touching _ (nameOf path)
             (fun d => setChildren (delete (nameOf path) <$> children d) d)).
    + intros d k' Hk'. rewrite child_after_delete. by rewrite decide_False.
    + by rewrite <- Hsegs.
    + by rewrite <- Hsegs.
Qed.

End DeleteFacts.



(** X3: creating a node and deleting it again is a round trip: when
    [createNode] succeeds under a parent that has its [children], a
    [deleteNode] on the same path succeeds and leaves the store object as
    it was before the two calls, saved. *)
Theorem createNode_then_deleteNode fs st path ty content_ now p :
  getNode fs (parentPathOf path) = Some p -> children p <> None ->
  fst (createNode path ty content_ now (mkMem fs st)) = true ->
  deleteNode path (snd (createNode path ty content_ now (mkMem fs st)))
  = (true, mkMem fs (Some fs)).
Proof.
  intros Hp Hkids. rewrite StoreFacts.createNode_unfold, Hp.
  destruct (Js.truthy (nameOf path)) eqn:Hn; simpl; [|done].
  destruct (isDirectory p) eqn:Ht; simpl; [|done].
  destruct (kidsOf p !! nameOf path) eqn:Hk; [done|]. simpl. intros _.
  set (v := freshNode ty (currentUser fs) content_ now).
  set (ins := fun d => setChildren (Some (<[nameOf path := v]> (kidsOf d))) d).
  rewrite TreeFacts.getNode_walk in Hp.
  assert (getNode (updateNode (parentPathOf path) ins fs) (parentPathOf path)
          = Some (ins p)) as Hp'.
  { rewrite TreeFacts.getNode_walk. unfold updateNode. simpl.
    by rewrite (TreeFacts.walk_updateAt_here _ _ _ _ Hp). }
  destruct (DeleteFacts.deleteNode_effect
              (updateNode (parentPathOf path) ins fs)
              (Some (updateNode (parentPathOf path) ins fs)) path (ins p) v)
    as (Hrun & _).
  - by apply JsFacts.truthy_true.
  - exact Hp'.
  - simpl. by apply StoreFacts.isDirectory_true.
  - unfold child, ins. simpl. by rewrite lookup_insert_eq.
  - rewrite Hrun. f_equal.
    assert (updateNode (parentPathOf path)
              (fun d => setChildren (delete (nameOf path) <$> children d) d)
              (updateNode (parentPathOf path) ins fs) = fs) as ->; [|done].
    unfold updateNode, setRoot. destruct fs as [r u us]. simpl in *. f_equal.
    rewrite TreeFacts.updateAt_updateAt.
    apply (TreeFacts.updateAt_id _ _ _ p Hp).
    unfold ins. simpl. rewrite delete_insert_id by done.
    unfold kidsOf. destruct p as [? ? [kids|] ? ? ? ?]; simpl in *; done.
Qed.

Lemma createNode_then_deleteNode_witness :
  deleteNode "/tmp/new"
    (snd (createNode "/tmp/new" directory "" 3 (mkMem (defaultFileSystem 0) None)))
  = (true, mkMem (defaultFileSystem 0) (Some (defaultFileSystem 0))).
Proof.
  apply (createNode_then_deleteNode (defaultFileSystem 0) None "/tmp/new"
           directory "" 3 (dirOf "root" "rwxrwxrwx" [] 0)).
  - reflexivity.
  - discriminate.
  - reflexivity.
Defined.

Module CopyMoreFacts.
Import Js JsFacts PathFacts TreeFacts StoreFacts RootFacts MoreFacts CopyFacts.

(** The entry written by [copyNode], as a function of the directory. *)
Lemma child_after_insert k v k' d :
  child k' (setChildren (Some (<[k := v]> (kidsOf d))) d)
  = if decide (k = k') then Some v else child k' d.
Proof.
  unfold child at 1. simpl. rewrite lookup_insert, child_kidsOf.
  by destruct (decide (k = k')).
Qed.


(** The target of a copy to a path that is not an existing directory. *)
Lemma copyTarget_path fs src dst :
  existsDirectory (getNode fs dst) = false ->
  (lastIndexOf slash dst < 0 /\ copyTarget fs src dst = None)
  \/ (0 <= lastIndexOf slash dst
      /\ exists d, copyTarget fs src dst = Some (d, nameOf dst)
                   /\ segmentsOf d = segmentsOf (parentPathOf dst)).
Proof.
  intros Hno. unfold copyTarget. rewrite Hno.
  destruct (lastIndexOf slash dst <? 0) eqn:E.
  - left. split; [by apply Z.ltb_lt|done].
  - right. apply Z.ltb_ge in E. split; [done|]. eexists. split; [done|].
    unfold parentPathOf. rewrite substring_0 by done.
    destruct (lastIndexOf slash dst <=? 0) eqn:E0.
    + apply Z.leb_le in E0. assert (lastIndexOf slash dst = 0) as -> by lia. done.
    + destruct (truthy _) eqn:Ht; [done|]. apply truthy_false in Ht. by rewrite Ht.
Qed.

(** What a successful copy to such a path leaves. *)
Lemma copyNode_path_effect fs st src dst now n :
  getNode fs src = Some n ->
  existsDirectory (getNode fs dst) = false ->
  0 <= lastIndexOf slash dst ->
  existsDirectory (getNode fs (parentPathOf dst)) = true ->
  exists d n',
    let fs' := updateNode d (fun x =>
                 setChildren
                   (Some (<[nameOf dst := cloneNode now n']> (kidsOf x))) x) fs in
    copyNode src dst now (mkMem fs st) = (true, mkMem fs' (Some fs'))
    /\ segmentsOf d = segmentsOf (parentPathOf dst)
    /\ segmentsOf dst = segmentsOf d ++ [nameOf dst]
    /\ walk (segmentsOf src) (updateAt (segmentsOf d) initChildren (root fs)) = Some n'
    /\ (forall q, agree (walk q n') (walk q n))
    /\ (~ segmentsOf src `prefix_of` segmentsOf dst -> n' = n)
    /\ getNode fs' dst = Some (cloneNode now n').
Proof.
  intros Hn Hno Hslash Hparent.
  destruct (copyTarget_path fs src dst Hno) as [[? _]|(_ & d & Htarget & Hd)]; [lia|].
  destruct (copyTarget_literal fs src dst d (nameOf dst) Hno Htarget) as [_ Hsegs].
  rewrite !getNode_walk in *. rewrite <- Hd in Hparent.
  destruct (walk (segmentsOf d) (root fs)) as [dd|] eqn:Hdd; [|done].
  simpl in Hparent.
  assert (truthy (nameOf dst) = true) as Hkt.
  { destruct (truthy (nameOf dst)) eqn:E; [done|]. rewrite app_nil_r in Hsegs.
    rewrite Hsegs, Hdd in Hno. simpl in Hno. congruence. }
  rewrite Hkt in Hsegs.
  assert (exists n', walk (segmentsOf src)
                       (updateAt (segmentsOf d) initChildren (root fs)) = Some n'
                     /\ forall q, agree (walk q n') (walk q n))
    as (n' & Hn' & Hagree).
  { pose proof (walk_updateAt_initChildren (segmentsOf src) (segmentsOf d) (root fs))
      as H0.
    rewrite Hn in H0. destruct H0 as (n' & Hn' & _). exists n'. split; [done|].
    intros q.
    pose proof (walk_updateAt_initChildren (segmentsOf src ++ q) (segmentsOf d)
                  (root fs)) as Hq.
    by rewrite !walk_app, Hn', Hn in Hq. }
  exists d, n'. cbv zeta. split_and!.
  - rewrite copyNode_unfold, (getNode_walk fs src), Hn, Htarget.
    rewrite (getNode_walk fs d), Hdd, Hparent.
    simpl negb. cbv iota. cbv zeta. rewrite getNode_walk.
    unfold updateNode at 1. simpl root. by rewrite Hn'.
  - done.
  - done.
  - done.
  - done.
  - intros Hpre.
    assert (walk (segmentsOf src)
              (updateAt (segmentsOf d) initChildren (root fs)) = Some n) as H.
    { apply walk_updateAt_initChildren_off; [done|].
      intros H. apply Hpre. rewrite Hsegs. by apply prefix_app_r. }
    congruence.
  - rewrite getNode_walk. unfold updateNode. simpl.
    rewrite Hsegs, (walk_updateAt _ _ _ _ _ Hdd).
    rewrite walk_cons, child_after_insert. by rewrite decide_True.
Qed.

End CopyMoreFacts.

(** X4: a copy to a destination that is not an existing directory uses the
    destination as the target itself.  For an existing source it succeeds
    exactly when the destination holds a slash and its parent path resolves
    to a directory.  Unless the name after the last slash of the
    destination is [__proto__], the destination then resolves to a clone of
    the source, of the source as it was unless the destination lies in the
    source; whatever the destination named before is replaced; and every
    path that neither leads to the destination nor passes through it
    resolves as before. *)
Theorem copyNode_to_path fs st src dst now n :
  getNode fs src = Some n ->
  existsDirectory (getNode fs dst) = false ->
  (fst (copyNode src dst now (mkMem fs st)) = true
   <-> 0 <= Js.lastIndexOf Js.slash dst
       /\ existsDirectory (getNode fs (parentPathOf dst)) = true)
  /\ (0 <= Js.lastIndexOf Js.slash dst ->
      existsDirectory (getNode fs (parentPathOf dst)) = true ->
      nameOf dst <> "__proto__" ->
      exists fs' n',
        copyNode src dst now (mkMem fs st) = (true, mkMem fs' (Some fs'))
        /\ nameOf dst <> ""
        /\ getNode fs' dst = Some (cloneNode now n')
        /\ (forall q, agree (walk q n') (walk q n))
        /\ (~ segmentsOf src `prefix_of` segmentsOf dst -> n' = n)
        /\ (forall q,
              ¬ q `prefix_of` segmentsOf dst -> ¬ segmentsOf dst `prefix_of` q ->
              walk q (root fs') = walk q (root fs))).
Proof.
  intros Hn Hno.
  assert (0 <= Js.lastIndexOf Js.slash dst ->
      existsDirectory (getNode fs (parentPathOf dst)) = true ->
      exists fs' n',
        copyNode src dst now (mkMem fs st) = (true, mkMem fs' (Some fs'))
        /\ nameOf dst <> ""
        /\ getNode fs' dst = Some (cloneNode now n')
        /\ (forall q, agree (walk q n') (walk q n))
        /\ (~ segmentsOf src `prefix_of` segmentsOf dst -> n' = n)
        /\ (forall q,
              ¬ q `prefix_of` segmentsOf dst -> ¬ segmentsOf dst `prefix_of` q ->
              walk q (root fs') = walk q (root fs))) as Heffect.
  { intros Hslash Hparent.
    destruct (CopyMoreFacts.copyNode_path_effect fs st src dst now n
                Hn Hno Hslash Hparent)
      as (d & n' & Hrun & Hd & Hsegs & Hn' & Hagree & Hsame & Hdst).
    eexists _, n'. split_and!; [exact Hrun| |exact Hdst|exact Hagree|exact Hsame|].
    - intros E. pose proof (MoreFacts.segmentsOf_segmentLike dst) as Hall.
      rewrite Hsegs in Hall. apply Forall_app in Hall as [_ Hall].
      inversion Hall as [|? ? [Hne _] _]; subst. by apply Hne.
    - intros q Hq1 Hq2. unfold updateNode. simpl.
      apply (MoreFacts.walk_updateAt_touching _ (nameOf dst)
               (fun x => setChildren
                           (Some (<[nameOf dst := cloneNode now n']> (kidsOf x))) x)).
      + intros x k' Hk'. rewrite CopyMoreFacts.child_after_insert.
        by rewrite decide_False.
      + by rewrite <- Hsegs.
      + by rewrite <- Hsegs. }
  split; [|intros Hslash Hparent _; by apply Heffect].
  split.
  - intros Hok.
    destruct (CopyMoreFacts.copyTarget_path fs src dst Hno)
      as [[Hneg Htarget]|(Hpos & d & Htarget & Hd)].
    + rewrite RootFacts.copyNode_unfold, Hn, Htarget in Hok. done.
    + split; [done|].
      rewrite RootFacts.copyNode_unfold, Hn, Htarget in Hok.
      rewrite !TreeFacts.getNode_walk in *. rewrite <- Hd.
      destruct (walk (segmentsOf d) (root fs)) as [dd|]; [|done].
      simpl. by destruct (isDirectory dd).
  - intros [Hslash Hparent].
    destruct (Heffect Hslash Hparent) as (fs' & n' & -> & _). done.
Qed.

Lemma copyNode_to_path_witness :
  exists fs' n',
    copyNode "/etc/hosts" "/tmp/hosts.bak" 4 (mkMem (defaultFileSystem 0) None)
    = (true, mkMem fs' (Some fs'))
    /\ nameOf "/tmp/hosts.bak" <> ""
    /\ getNode fs' "/tmp/hosts.bak" = Some (cloneNode 4 n')
    /\ (forall q, agree (walk q n')
                    (walk q (fileOf "root" "rw-r--r--"
                               (Js.join Js.nl
                                  ["127.0.0.1 localhost"; "127.0.1.1 ubuntu-terminal"])
                               0)))
    /\ (~ segmentsOf "/etc/hosts" `prefix_of` segmentsOf "/tmp/hosts.bak" ->
        n' = fileOf "root" "rw-r--r--"
               (Js.join Js.nl ["127.0.0.1 localhost"; "127.0.1.1 ubuntu-terminal"]) 0)
    /\ (forall q,
          ¬ q `prefix_of` segmentsOf "/tmp/hosts.bak" ->
          ¬ segmentsOf "/tmp/hosts.bak" `prefix_of` q ->
          walk q (root fs') = walk q (root (defaultFileSystem 0))).
Proof.
  apply (proj2 (copyNode_to_path (defaultFileSystem 0) None "/etc/hosts"
                  "/tmp/hosts.bak" 4 _ eq_refl eq_refl)).
  - vm_compute. discriminate.
  - reflexivity.
  - discriminate.
Defined.

(** X5: [createNode], [deleteNode], [copyNode], [changePermissions],
    [switchUser] and [addUser] are all or nothing: when one of them returns
    false, the object and [localStorage] are as before, and when it returns
    true, [localStorage] holds the object as the call left it.  [moveNode]
    saves when it succeeds, and when it fails it has either changed nothing
    or left the store as its copy saved it. *)
Theorem storage_operations_save_or_leave m :
  (forall path ty content_ now, savesOrLeaves m (createNode path ty content_ now m))
  /\ (forall path, savesOrLeaves m (deleteNode path m))
  /\ (forall src dst now, savesOrLeaves m (copyNode src dst now m))
  /\ (forall path mode, savesOrLeaves m (changePermissions path mode m))
  /\ (forall username, savesOrLeaves m (switchUser username m))
  /\ (forall username password_ isAdmin_ now,
        savesOrLeaves m (addUser username password_ isAdmin_ now m))
  /\ (forall src dst now,
        (fst (moveNode src dst now m) = true ->
         stored (snd (moveNode src dst now m))
         = Some (fsObj (snd (moveNode src dst now m))))
        /\ (fst (moveNode src dst now m) = false ->
            snd (moveNode src dst now m) = m
            \/ (fst (copyNode src dst now m) = true
                /\ snd (moveNode src dst now m) = snd (copyNode src dst now m)
                /\ stored (snd (moveNode src dst now m))
                   = Some (fsObj (snd (moveNode src dst now m)))))).
Proof.
  destruct m as [fs st].
  assert (forall path m0, savesOrLeaves m0 (deleteNode path m0)) as Hdel.
  { intros path [fs0 st0]. unfold savesOrLeaves. rewrite StoreFacts.deleteNode_unfold.
    destruct (negb (Js.truthy (nameOf path))); [done|].
    destruct (getNode fs0 (parentPathOf path)) as [p|]; [|done].
    destruct (negb (isDirectory p)); [done|].
    by destruct (child (nameOf path) p). }
  assert (forall src dst now, savesOrLeaves (mkMem fs st) (copyNode src dst now (mkMem fs st)))
    as Hcopy.
  { intros src dst now. unfold savesOrLeaves. rewrite RootFacts.copyNode_unfold.
    destruct (getNode fs src) as [n|]; [|done].
    destruct (copyTarget fs src dst) as [[d k]|]; [|done].
    destruct (getNode fs d) as [dd|]; [|done].
    by destruct (negb (isDirectory dd)). }
  split_and!.
  - intros path ty c now. unfold savesOrLeaves. rewrite StoreFacts.createNode_unfold.
    destruct (negb (Js.truthy (nameOf path))); [done|].
    destruct (getNode fs (parentPathOf path)) as [p|]; [|done].
    destruct (negb (isDirectory p)); [done|].
    by destruct (kidsOf p !! nameOf path).
  - intros path. apply Hdel.
  - apply Hcopy.
  - intros path mode. unfold savesOrLeaves.
    cbv [changePermissions bind readFs ret mutate saveFileSystem fsObj stored].
    destruct (getNode fs path); [|done]. by destruct (negb (isStrictMode mode)).
  - intros username. unfold savesOrLeaves.
    cbv [switchUser bind readFs ret mutate saveFileSystem fsObj stored].
    by destruct (users fs !! username).
  - intros username pw adm now. unfold savesOrLeaves.
    unfold addUser, bind, readFs, ret, mutate, saveFileSystem. simpl.
    destruct (users fs !! username); [done|].
    destruct (createNode _ _ _ _ _) as [b m1]. simpl.
    destruct (getNode (fsObj m1) _) as [h|]; [|done].
    by destruct (children h).
  - intros src dst now. rewrite RootFacts.moveNode_unfold.
    specialize (Hcopy src dst now). unfold savesOrLeaves in Hcopy.
    destruct (copyNode src dst now (mkMem fs st)) as [c m1]. simpl in *.
    destruct c; [|split; [done|by left]].
    specialize (Hdel src m1). unfold savesOrLeaves in Hdel.
    destruct (deleteNode src m1) as [b m2]. simpl in *.
    destruct b; [done|]. subst m2. split; [done|]. intros _. by right.
Qed.

Lemma storage_operations_save_or_leave_witness :
  let m := mkMem (defaultFileSystem 0) None in
  snd (deleteNode "/" m) = m
  /\ stored (snd (createNode "/tmp/a" file "" 1 m))
     = Some (fsObj (snd (createNode "/tmp/a" file "" 1 m)))
  /\ snd (moveNode "/nowhere" "/tmp/a" 1 m) = m.
Proof.
  intros m.
  destruct (storage_operations_save_or_leave m) as (Hc & Hd & _ & _ & _ & _ & Hm).
  split_and!.
  - exact (Hd "/").
  - exact (Hc "/tmp/a" file "" 1).
  - destruct (Hm "/nowhere" "/tmp/a" 1) as [_ Hfail].
    destruct (Hfail eq_refl) as [H | (H & _)]; [exact H|discriminate H].
Defined.

Module MoveFacts.
Import Js JsFacts PathFacts TreeFacts StoreFacts RootFacts MoreFacts CopyFacts
       CopyMoreFacts DeleteFacts.


End MoveFacts.





Module ResolveFacts.
Import Js JsFacts PathFacts TreeFacts MoreFacts.

Lemma Forall_removelast {A} (P : A -> Prop) (l : list A) :
  Forall P l -> Forall P (removelast l).
Proof.
  induction 1 as [|x l Hx Hl IH]; simpl; [constructor|].
  destruct l; [constructor|]. by constructor.
Qed.

Lemma length_removelast_le {A} (l : list A) : (length (removelast l) <= length l)%nat.
Proof.
  induction l as [|x l IH]; simpl; [lia|]. destruct l; simpl in *; lia.
Qed.

(** What one segment does to the stack. *)
Lemma applySegment_cases stack seg :
  (seg = ".." /\ applySegment stack seg = removelast stack)
  \/ (seg = "." /\ applySegment stack seg = stack)
  \/ (seg <> ".." /\ seg <> "." /\ applySegment stack seg = stack ++ [seg]).
Proof.
  unfold applySegment.
  destruct (eqb_str seg "..") eqn:E1.
  - apply eqb_str_true in E1. left. split; [done|].
    destruct stack as [|a l]; [done|].
    assert ((0 <? Z.of_nat (length (a :: l))) = true) as ->; [|done].
    apply Z.ltb_lt. simpl length. lia.
  - apply eqb_str_false in E1. destruct (eqb_str seg ".") eqn:E2.
    + apply eqb_str_true in E2. right. left. by split.
    + apply eqb_str_false in E2. right. right. by split_and!.
Qed.

Lemma applySegments_invariant (P : string -> Prop) segs stack :
  Forall P stack -> Forall (fun s => s <> ".." -> s <> "." -> P s) segs ->
  Forall P (fold_left applySegment segs stack).
Proof.
  revert stack. induction segs as [|s segs IH]; intros stack Hst Hsegs; [done|].
  simpl. inversion Hsegs; subst. apply IH; [|done].
  destruct (applySegment_cases stack s) as [[_ ->]|[[_ ->]|(Hs1 & Hs2 & ->)]].
  - by apply Forall_removelast.
  - done.
  - apply Forall_app. split; [done|]. constructor; [auto|constructor].
Qed.

Lemma applySegments_length segs stack :
  (length (fold_left applySegment segs stack) <= length stack + length segs)%nat.
Proof.
  revert stack. induction segs as [|s segs IH]; intros stack; simpl; [lia|].
  specialize (IH (applySegment stack s)).
  destruct (applySegment_cases stack s) as [[_ E]|[[_ E]|(_ & _ & E)]];
    rewrite E in *.
  - pose proof (length_removelast_le stack). lia.
  - lia.
  - rewrite length_app in IH. simpl in IH. lia.
Qed.

(** The last branch of [resolvePath]. *)
Lemma resolvePath_relative fs path cp :
  startsWith "/" path = false -> startsWith "~" path = false ->
  resolvePath fs path cp
  = "/" +:+ join "/" (fold_left applySegment (segmentsOf path) (segmentsOf cp)).
Proof.
  intros H1 H2. unfold resolvePath. rewrite H1.
  assert (eqb_str path "~" = false /\ startsWith "~/" path = false)
    as [-> ->]; [|done].
  destruct path as [|a r]; [done|].
  simpl in H2. rewrite andb_true_r in H2. split.
  - apply eqb_str_false. intros [= -> ->]. done.
  - simpl. by rewrite H2.
Qed.

End ResolveFacts.

(** X8: the result of resolving a relative path is in normal form.  Its
    segments are the stack that the loop leaves, so [getNode] on it walks
    that stack; it starts with a slash and resolving it again returns it;
    it has at most as many segments as the current path and the input
    together; and it holds a [.] or [..] segment only if the current path
    already did. *)
Theorem resolvePath_relative_normal_form fs path cp :
  Js.startsWith "/" path = false -> Js.startsWith "~" path = false ->
  let stack := fold_left applySegment (segmentsOf path) (segmentsOf cp) in
  segmentsOf (resolvePath fs path cp) = stack
  /\ getNode fs (resolvePath fs path cp) = walk stack (root fs)
  /\ Js.startsWith "/" (resolvePath fs path cp) = true
  /\ (forall cp', resolvePath fs (resolvePath fs path cp) cp' = resolvePath fs path cp)
  /\ (length stack <= length (segmentsOf cp) + length (segmentsOf path))%nat
  /\ (Forall (fun s => s <> "." /\ s <> "..") (segmentsOf cp) ->
      Forall (fun s => s <> "." /\ s <> "..") stack).
Proof.
  intros Habs Htilde stack.
  assert (resolvePath fs path cp = "/" +:+ Js.join "/" stack) as Hres.
  { by apply ResolveFacts.resolvePath_relative. }
  assert (segmentsOf (resolvePath fs path cp) = stack) as Hsegs.
  { rewrite Hres. apply MoreFacts.segmentsOf_join.
    apply ResolveFacts.applySegments_invariant.
    - apply MoreFacts.segmentsOf_segmentLike.
    - eapply Forall_impl; [apply MoreFacts.segmentsOf_segmentLike|]. auto. }
  split_and!.
  - done.
  - by rewrite TreeFacts.getNode_walk, Hsegs.
  - by rewrite Hres.
  - intros cp'. unfold resolvePath at 1. by rewrite Hres.
  - apply ResolveFacts.applySegments_length.
  - intros H. apply ResolveFacts.applySegments_invariant; [done|].
    apply Forall_forall. intros s _ H1 H2. by split.
Qed.

Lemma resolvePath_relative_normal_form_witness :
  segmentsOf (resolvePath (defaultFileSystem 0) "../.././etc//hosts" "/home/ubuntu")
  = ["etc"; "hosts"]
  /\ Forall (fun s => s <> "." /\ s <> "..")
       (fold_left applySegment (segmentsOf "../.././etc//hosts")
          (segmentsOf "/home/ubuntu")).
Proof.
  destruct (resolvePath_relative_normal_form (defaultFileSystem 0)
              "../.././etc//hosts" "/home/ubuntu" eq_refl eq_refl)
    as (Hsegs & _ & _ & _ & _ & Hdots).
  split.
  - rewrite Hsegs. reflexivity.
  - apply Hdots. repeat constructor; discriminate.
Defined.

(** * Further properties of users and sessions *)

Module UserFacts.
Import Js JsFacts PathFacts TreeFacts StoreFacts MoreFacts.








End UserFacts.



Module SessionFacts.
Import Js JsFacts.

(** A body that leaves the object and [localStorage] alone leaves the
    world alone. *)
Lemma withLoaded_pure {A} (body : M A) w :
  (forall m, snd (body m) = m) -> snd (withLoaded body w) = w.
Proof.
  intros H. unfold withLoaded. specialize (H (mkMem (loadFileSystem w) (localStorage w))).
  destruct (body _) as [a m]. simpl in *. subst m. simpl.
  destruct w as [[s|] d]; done.
Qed.



End SessionFacts.





(** * Further properties of the history and the interpreter *)

Module RecallFacts.
Import Js JsFacts HistoryFacts.

Lemma pressUp_succ k h : pressUp (S k) h = snd (getPreviousCommand (pressUp k h)).
Proof. reflexivity. Qed.

(** Where the cursor is after [k] presses. *)
Lemma pressUp_cursor k h :
  commands h <> [] -> 0 <= position h ->
  commands (pressUp k h) = commands h
  /\ position (pressUp k h) = Z.max 0 (position h - Z.of_nat k).
Proof.
  intros Hne Hpos. induction k as [|k [IHc IHp]].
  - split; [done|]. simpl. lia.
  - rewrite pressUp_succ, previous_commands, previous_position, IHc, IHp.
    split; [done|].
    rewrite bool_decide_eq_false_2; [|by destruct (commands h)].
    destruct (0 <? Z.max 0 (position h - Z.of_nat k)) eqn:E.
    + apply Z.ltb_lt in E. lia.
    + apply Z.ltb_ge in E. lia.
Qed.

Lemma nonblank_nonempty c : trim c <> "" -> c <> "".
Proof. by intros H ->. Qed.

(** What the Up key returns where the entries are not blank. *)
Lemma previous_entry h :
  Forall (fun c => trim c <> "") (commands h) ->
  commands h <> [] -> 0 <= position h <= Z.of_nat (length (commands h)) ->
  exists c,
    commands h !! Z.to_nat (Z.max 0 (position h - 1)) = Some c
    /\ fst (getPreviousCommand h) = c.
Proof.
  intros Hall Hne Hpos. unfold getPreviousCommand.
  rewrite bool_decide_eq_false_2; [|by destruct (commands h)]. simpl.
  assert ((if 0 <? position h then position h - 1 else position h)
          = Z.max 0 (position h - 1)) as ->.
  { destruct (0 <? position h) eqn:E;
      [apply Z.ltb_lt in E|apply Z.ltb_ge in E]; lia. }
  assert (Z.to_nat (Z.max 0 (position h - 1)) < length (commands h))%nat as Hlt.
  { destruct (commands h); [done|]. simpl in *. lia. }
  apply lookup_lt_is_Some in Hlt as [c Hc]. exists c. split; [done|].
  unfold at_. rewrite (proj2 (Z.ltb_ge _ _)); [|lia]. rewrite Hc.
  assert (c <> "") as Hc'.
  { apply nonblank_nonempty. rewrite Forall_lookup in Hall. by eapply Hall. }
  apply truthy_true in Hc'. by rewrite Hc'.
Qed.

End RecallFacts.

(** X12: recalling commands.  After a command that is not blank has been
    entered, it is the last entry; the Up key pressed [k + 1] times returns
    the entry [k] places before the last, and the oldest entry from then
    on; Down after one Up returns the empty line and the history is as
    after the entry; and Down after [k + 2] presses of Up returns what the
    [k + 1]-th press returned. *)
Theorem history_recall ops c k :
  Js.trim c <> "" ->
  let h := addToHistory c (historyAfter ops) in
  let n := length (commands h) in
  last (commands h) = Some c
  /\ (exists e, commands h !! (n - 1 - k)%nat = Some e
                /\ fst (getPreviousCommand (pressUp k h)) = e)
  /\ getNextCommand (pressUp 1 h) = ("", h)
  /\ ((k + 2 <= n)%nat ->
      fst (getNextCommand (pressUp (k + 2) h))
      = fst (getPreviousCommand (pressUp k h))).
Proof.
  intros Hc h n.
  pose proof (HistoryFacts.wellFormed_step _ (Add c)
                (HistoryFacts.wellFormed_after ops)) as (Hpos & _ & _ & Hall).
  change (historyStep (historyAfter ops) (Add c)) with h in *.
  assert (position h = Z.of_nat n) as Hp by reflexivity.
  assert (last (commands h) = Some c) as Hlast.
  { destruct (HistoryFacts.addToHistory_commands c (historyAfter ops))
      as [E | (E & _)]; fold h in E.
    - rewrite E. unfold h, addToHistory in E. simpl in E.
      apply JsFacts.truthy_true in Hc. rewrite Hc in E. simpl in E.
      destruct (bool_decide (length (commands (historyAfter ops)) = 0%nat)) eqn:E0;
        simpl in E.
      + apply (f_equal length) in E. rewrite length_app in E. simpl in E. lia.
      + destruct (bool_decide (last (commands (historyAfter ops)) = Some c)) eqn:E1;
          simpl in E.
        * by apply bool_decide_eq_true in E1.
        * apply (f_equal length) in E. rewrite length_app in E. simpl in E. lia.
    - rewrite E. by rewrite last_snoc. }
  assert (commands h <> []) as Hne.
  { intros E. by rewrite E in Hlast. }
  assert (0 < n)%nat as Hn.
  { unfold n. destruct (commands h); [done|]. simpl. lia. }
  assert (forall j, commands (pressUp j h) = commands h
                    /\ position (pressUp j h) = Z.max 0 (Z.of_nat n - Z.of_nat j))
    as Hup.
  { intros j. rewrite <- Hp. apply RecallFacts.pressUp_cursor; [done|lia]. }
  assert (forall j, exists e,
             commands h !! (n - 1 - j)%nat = Some e
             /\ fst (getPreviousCommand (pressUp j h)) = e) as Hprev.
  { intros j. destruct (Hup j) as [Hcs Hps].
    destruct (RecallFacts.previous_entry (pressUp j h)) as (e & He & Hfst).
    - by rewrite Hcs.
    - by rewrite Hcs.
    - rewrite Hcs, Hps. fold n. lia.
    - exists e. split; [|done]. rewrite Hcs, Hps in He.
      by replace (n - 1 - j)%nat
        with (Z.to_nat (Z.max 0 (Z.max 0 (Z.of_nat n - Z.of_nat j) - 1))) by lia. }
  split_and!.
  - done.
  - apply Hprev.
  - destruct (Hup 1%nat) as [Hcs Hps]. unfold getNextCommand.
    rewrite Hcs, Hps. fold n.
    rewrite (proj2 (Z.ltb_ge _ _)); [|lia]. done.
  - intros Hk. destruct (Hup (k + 2)%nat) as [Hcs Hps].
    destruct (Hprev k) as (e & He & ->).
    unfold getNextCommand. rewrite Hcs, Hps. fold n.
    rewrite (proj2 (Z.ltb_lt _ _)); [|lia]. cbn [fst].
    unfold Js.at_. rewrite (proj2 (Z.ltb_ge _ _)); [|lia].
    replace (Z.to_nat (Z.max 0 (Z.of_nat n - Z.of_nat (k + 2)) + 1))
      with (n - 1 - k)%nat by lia.
    by rewrite He.
Qed.

Lemma history_recall_witness :
  let h := addToHistory "pwd" (historyAfter [Add "ls"; Add "cd /tmp"; Previous]) in
  commands h = ["ls"; "cd /tmp"; "pwd"]
  /\ fst (getPreviousCommand (pressUp 1 h)) = "cd /tmp"
  /\ fst (getNextCommand (pressUp 3 h)) = "cd /tmp"
  /\ getNextCommand (pressUp 1 h) = ("", h).
Proof.
  intros h. subst h.
  destruct (history_recall [Add "ls"; Add "cd /tmp"; Previous] "pwd" 1)
    as (_ & (e & He & Hup) & Hdown & Hback); [discriminate|].
  split_and!.
  - reflexivity.
  - rewrite Hup. vm_compute in He. congruence.
  - change 3%nat with (1 + 2)%nat. rewrite Hback; [|vm_compute; lia].
    rewrite Hup. vm_compute in He. congruence.
  - apply Hdown.
Defined.

Module ParseFacts.
Import Js JsFacts.

Lemma rev_app_empty s acc : String.rev_app s acc = "" -> s = "" /\ acc = "".
Proof.
  revert acc. induction s as [|a s IH]; intros acc H; simpl in H; [done|].
  by apply IH in H as [_ H].
Qed.

Lemma trimStart_rev_app s acc :
  trimStart (String.rev_app s acc) = "" -> trimStart acc = "".
Proof.
  revert acc. induction s as [|b s IH]; intros acc H; simpl in H; [done|].
  apply IH in H. simpl in H. by destruct (Ascii.is_space b).
Qed.

Lemma trimStart_head s a r : trimStart s = String a r -> Ascii.is_space a = false.
Proof.
  induction s as [|b s IH]; simpl; [done|].
  destruct (Ascii.is_space b) eqn:E; [done|]. by intros [= <- _].
Qed.

Lemma trim_empty s : trim s = "" -> trimStart s = "".
Proof.
  unfold trim, String.rev. intros H. apply rev_app_empty in H as [H _].
  destruct (trimStart s) as [|a r] eqn:E; [done|].
  simpl in H. apply trimStart_rev_app in H. simpl in H.
  by rewrite (trimStart_head _ _ _ E) in H.
Qed.

Lemma words_blank s : trimStart s = "" -> String.words s = [].
Proof.
  unfold String.words. induction s as [|a s IH]; simpl; [done|].
  destruct (Ascii.is_space a); [auto|done].
Qed.

(** A blank line has the empty command word. *)
Lemma blank_commandName command : trim command = "" -> commandName command = "".
Proof.
  intros H. unfold commandName, splitWhitespace.
  by rewrite (words_blank _ (trim_empty _ H)).
Qed.

Lemma named_nonblank command name :
  commandName command = name -> name <> "" -> eqb_str (trim command) "" = false.
Proof.
  intros H Hn. apply eqb_str_false. intros E. apply Hn.
  by rewrite <- H, (blank_commandName _ E).
Qed.

End ParseFacts.

(** Replace the tests of the command word by their values, the word being
    the literal [name]. *)
Ltac pick_case name :=
  repeat match goal with
         | |- context [Js.eqb_str name ?b] =>
             let v := eval vm_compute in (Js.eqb_str name b) in
             change (Js.eqb_str name b) with v
         end;
  cbv iota.

Module ReadFacts.
Import Js JsFacts.

Lemma not_writing command name :
  commandName command ∉ writingCommands -> name ∈ writingCommands ->
  eqb_str (commandName command) name = false.
Proof. intros H Hin. apply eqb_str_false. by intros E; rewrite E in H. Qed.

End ReadFacts.

(** X13: only ten commands write.  A line whose command word is none of
    [mkdir], [touch], [echo], [rm], [su], [adduser], [passwd], [cp], [mv]
    and [chmod] leaves the store and [localStorage] as they are: so do the
    blank line, [sudo] (which only buffers its command), [cd], [pwd],
    [cat], [clear], [whoami], the commands that only print, and every
    unknown word. *)
Theorem only_ten_commands_write printed command st now w :
  commandName command ∉ writingCommands ->
  snd (processCommandInternal printed command st now w) = w.
Proof.
  intros H. unfold processCommandInternal. apply SessionFacts.withLoaded_pure.
  intros m. unfold dispatch, bind, readFs. cbv zeta.
  change (Js.toLowerCase (default "" (Js.splitWhitespace command !! 0%nat)))
    with (commandName command).
  assert (forall name, name ∈ writingCommands ->
                       Js.eqb_str (commandName command) name = false) as Hw.
  { intros name. by apply ReadFacts.not_writing. }
  rewrite (Hw "mkdir"), (Hw "touch"), (Hw "echo"), (Hw "rm"), (Hw "su"),
    (Hw "adduser"), (Hw "passwd"), (Hw "cp"), (Hw "mv"), (Hw "chmod")
    by (unfold writingCommands; repeat constructor).
  cbv iota. unfold ret.
  repeat case_match; done.
Qed.

Lemma only_ten_commands_write_witness :
  let w := mkWorld None (defaultFileSystem 0) in
  snd (processCommandInternal (fun _ _ _ _ _ => []) "sudo rm -r /etc"
         initialTerminalState 1 w) = w
  /\ snd (processCommandInternal (fun _ _ _ _ _ => []) "cd /etc"
            initialTerminalState 1 w) = w.
Proof.
  intros w. split.
  - apply (only_ten_commands_write (fun _ _ _ _ _ => []) "sudo rm -r /etc").
    vm_compute. intros Hin.
    repeat (apply elem_of_cons in Hin as [Hin|Hin]; [discriminate|]).
    by apply elem_of_nil in Hin.
  - apply (only_ten_commands_write (fun _ _ _ _ _ => []) "cd /etc").
    vm_compute. intros Hin.
    repeat (apply elem_of_cons in Hin as [Hin|Hin]; [discriminate|]).
    by apply elem_of_nil in Hin.
Defined.

Module AccountFacts.
Import Js JsFacts.


(** The store that [loadFileSystem] hands out after a body that saved. *)
Lemma withLoaded_saved {A} (body : M A) w a fs' :
  body (mkMem (loadFileSystem w) (localStorage w)) = (a, mkMem fs' (Some fs')) ->
  fst (withLoaded body w) = a
  /\ localStorage (snd (withLoaded body w)) = Some fs'
  /\ loadFileSystem (snd (withLoaded body w)) = fs'.
Proof. intros H. unfold withLoaded. rewrite H. done. Qed.

End AccountFacts.





Module AddFacts.
Import Js JsFacts.


End AddFacts.



Module RmFacts.
Import Js JsFacts.



End RmFacts.



Module EchoFacts.
Import Js JsFacts PathFacts TreeFacts StoreFacts.

(** A write of the fields of the node at a path: the path resolves to the
    written node, and every other path resolves as before, to a node with
    the fields it had. *)
Lemma updateNode_fields fs path g f :
  (forall x k, child k (g x) = child k x) ->
  getNode fs path = Some f ->
  getNode (updateNode path g fs) path = Some (g f)
  /\ forall q, q <> segmentsOf path ->
       match walk q (root fs) with
       | Some o =>
           exists o', walk q (root (updateNode path g fs)) = Some o'
                      /\ sameFields o' o
       | None => walk q (root (updateNode path g fs)) = None
       end.
Proof.
  intros Hg Hf. split.
  - rewrite !getNode_walk in *. unfold updateNode, setRoot. cbn [root].
    by apply walk_updateAt_here.
  - intros q Hq. unfold updateNode, setRoot. cbn [root].
    pose proof (MoreFacts.walk_updateAt_shape g q (segmentsOf path) (root fs) Hg)
      as H.
    destruct (walk q (root fs)) as [o|]; [|done].
    destruct H as (o' & Ho' & Hshape). exists o'. split; [done|].
    rewrite decide_False in Hshape by done. by destruct Hshape as [ks ->].
Qed.


Lemma append_nonempty s a t : s +:+ String a t <> "".
Proof. by destruct s. Qed.

(** What [cat] prints for an operand that resolves to a file. *)
Lemma cat_prints printed line operand st now w n :
  commandName line = "cat" ->
  splitWhitespace line !! 1%nat = Some operand ->
  getNode (loadFileSystem w)
    (resolvePath (loadFileSystem w) operand (currentPath st)) = Some n ->
  type n = file ->
  processCommandInternal printed line st now w
  = (out (split "010"%char (orElse (content n) "")), w).
Proof.
  intros Hname Hop Hn Ht.
  pose proof (ParseFacts.named_nonblank _ _ Hname ltac:(discriminate)) as Hnb.
  assert ((Z.of_nat (length (splitWhitespace line)) <? 2) = false) as Hlen.
  { apply Z.ltb_ge. apply lookup_lt_Some in Hop. lia. }
  unfold processCommandInternal, dispatch. cbv zeta.
  change (toLowerCase (default "" (splitWhitespace line !! 0%nat)))
    with (commandName line).
  rewrite Hname, Hnb. pick_case "cat". rewrite Hlen, Hop.
  change (shown (Some operand)) with operand.
  unfold withLoaded, bind, readFs. cbn [fsObj]. rewrite Hn.
  assert (isDirectory n = false) as ->.
  { apply isDirectory_false. by rewrite Ht. }
  cbn [negb]. unfold ret. f_equal. by destruct w as [[s|] d].
Qed.

(** The case of [echo]. *)
Lemma echo_dispatch printed line st now m :
  commandName line = "echo" ->
  dispatch printed line st now m = echoCase (splitWhitespace line) st now m.
Proof.
  intros Hname.
  pose proof (ParseFacts.named_nonblank _ _ Hname ltac:(discriminate)) as Hnb.
  unfold dispatch, bind, readFs. cbv zeta.
  change (toLowerCase (default "" (splitWhitespace line !! 0%nat)))
    with (commandName line).
  rewrite Hname, Hnb. by pick_case "echo".
Qed.

(** A line whose text holds [>>] at its first [>] is an append of what
    stands before to what stands after. *)
Lemma echo_appends printed line st now w :
  commandName line = "echo" ->
  0 <= indexOf ">" (echoTextOf line) ->
  startsWith ">" (echoRestOf line) = true ->
  processCommandInternal printed line st now w
  = withLoaded (echoAppend (splitWhitespace line) (echoContentOf line)
                  (echoAppendPathOf line) st now) w.
Proof.
  intros Hname Hi Happ. unfold processCommandInternal, withLoaded.
  rewrite (echo_dispatch _ _ _ _ _ Hname). unfold echoCase. cbv zeta.
  fold (echoTextOf line). apply Z.leb_le in Hi. rewrite Hi.
  fold (echoContentOf line) (echoRestOf line). rewrite Happ.
  by fold (echoAppendPathOf line).
Qed.




(** The append branch on a file. *)
Lemma echoAppend_file args text redirectPath state now fs st f :
  let target := resolvePath fs redirectPath (currentPath state) in
  let fs' :=
    updateNode target (fun n =>
      setModified now
        (setContent (Some (orElse (content n) "" +:+ nl +:+ text)) n)) fs in
  getNode fs target = Some f -> type f = file ->
  echoAppend args text redirectPath state now (mkMem fs st)
  = (out [], mkMem fs' (Some fs')).
Proof.
  intros target fs' Hf Ht.
  cbv [echoAppend bind readFs ret mutate saveFileSystem fsObj stored].
  fold target. rewrite Hf.
  assert (isFile f = true) as ->; [by apply bool_decide_eq_true|]. done.
Qed.



End EchoFacts.

(** X18: an [echo] line that appends to a file.  The text of the line is
    its words after the first, joined by one space.  Where that text holds
    a [>] and what follows the first [>] starts with another, what stands
    before the first, trimmed, is appended to the path that stands after
    the second, trimmed.  Where that path resolves to a file, the line
    prints nothing and saves; the file's content is the old content, a
    newline and what is appended, also where the old content is empty or
    missing, and its modification time is the instant of the call; every
    other path resolves as before to a node with the fields it had.  A
    [cat] whose operand resolves to the target then prints the lines of the
    old content followed by the lines of what was appended. *)
Theorem echo_append_then_cat printed line state now w f
    catLine operand state2 now2 :
  commandName line = "echo" ->
  0 <= Js.indexOf ">" (echoTextOf line) ->
  Js.startsWith ">" (echoRestOf line) = true ->
  let fs := loadFileSystem w in
  let text := echoContentOf line in
  let target := resolvePath fs (echoAppendPathOf line) (currentPath state) in
  let run := processCommandInternal printed line state now w in
  let fs' := loadFileSystem (snd run) in
  getNode fs target = Some f -> type f = file ->
  commandName catLine = "cat" ->
  Js.splitWhitespace catLine !! 1%nat = Some operand ->
  resolvePath fs' operand (currentPath state2) = target ->
  fst run = out [] /\ localStorage (snd run) = Some fs'
  /\ currentUser fs' = currentUser fs /\ users fs' = users fs
  /\ getNode fs' target
     = Some (setModified now
               (setContent (Some (orElse (content f) "" +:+ Js.nl +:+ text)) f))
  /\ (forall q, q <> segmentsOf target ->
        match walk q (root fs) with
        | Some o => exists o', walk q (root fs') = Some o' /\ sameFields o' o
        | None => walk q (root fs') = None
        end)
  /\ processCommandInternal printed catLine state2 now2 (snd run)
     = (out (Js.split "010"%char (orElse (content f) "")
             ++ Js.split "010"%char text),
        snd run).
Proof.
  intros Hecho Hi Happ fs text target run fs' Hf Ht Hcat Hop Hres.
  set (g := fun n => setModified now
                       (setContent (Some (orElse (content n) "" +:+ Js.nl +:+ text)) n)).
  pose proof (EchoFacts.echo_appends printed line state now w Hecho Hi Happ) as Hrun.
  fold run in Hrun.
  destruct (AccountFacts.withLoaded_saved
              (echoAppend (Js.splitWhitespace line) (echoContentOf line)
                 (echoAppendPathOf line) state now) w (out [])
              (updateNode target g fs)) as (Hout & Hst & Hload).
  { exact (EchoFacts.echoAppend_file _ _ _ _ _ _ _ f Hf Ht). }
  rewrite <- Hrun in Hout, Hst, Hload. fold fs' in Hload.
  destruct (EchoFacts.updateNode_fields fs target g f) as [Hnow Hothers]; [done|done|].
  rewrite <- Hload in Hnow, Hothers.
  split_and!.
  - done.
  - by rewrite Hst, Hload.
  - by rewrite Hload.
  - by rewrite Hload.
  - done.
  - done.
  - rewrite (EchoFacts.cat_prints printed catLine operand state2 now2
               (snd run) (g f) Hcat Hop).
    + do 2 f_equal. unfold g. cbn [content setModified setContent orElse].
      change (Js.nl +:+ text) with (String "010"%char text).
      pose proof (EchoFacts.append_nonempty (orElse (content f) "") "010"%char text)
        as Hne.
      apply JsFacts.truthy_true in Hne. rewrite Hne.
      apply JsFacts.split_app.
    + fold fs'. by rewrite Hres.
    + unfold g. by cbn [type setModified setContent].
Qed.

Lemma echo_append_then_cat_witness :
  let w := mkWorld None (defaultFileSystem 0) in
  let run :=
    processCommandInternal (fun _ _ _ _ _ => []) "echo a   b >> /etc/hostname"
      initialTerminalState 5 w in
  exists old,
    (content <$> getNode (defaultFileSystem 0) "/etc/hostname") = Some (Some old)
    /\ fst (processCommandInternal (fun _ _ _ _ _ => []) "cat /etc/hostname"
              initialTerminalState 6 (snd run))
       = out (Js.split "010"%char old ++ ["a b"]).
Proof.
  intros w run.
  destruct (getNode (defaultFileSystem 0) "/etc/hostname") as [f|] eqn:Hf;
    [|by vm_compute in Hf].
  destruct (echo_append_then_cat (fun _ _ _ _ _ => [])
              "echo a   b >> /etc/hostname" initialTerminalState 5 w f
              "cat /etc/hostname" "/etc/hostname" initialTerminalState 6)
    as (_ & _ & _ & _ & _ & _ & Hcat).
  - reflexivity.
  - by vm_compute.
  - reflexivity.
  - exact Hf.
  - vm_compute in Hf. by injection Hf as <-.
  - reflexivity.
  - reflexivity.
  - reflexivity.
  - vm_compute in Hf. injection Hf as <-.
    eexists. split; [reflexivity|]. fold run in Hcat. by rewrite Hcat.
Defined.





Module ModeFacts.
Import Js JsFacts.



End ModeFacts.

Module EnterFacts.
Import Js JsFacts.



End EnterFacts.





Module CompletionFacts.
Import Js JsFacts.

Lemma startsWith_app_l a b c : startsWith (a +:+ b) (a +:+ c) = startsWith b c.
Proof.
  induction a as [|x a IH]; [done|].
  rewrite !append_cons. simpl. by rewrite eqb_char_refl, IH.
Qed.

Lemma startsWith_app_r p n s : startsWith p n = true -> startsWith p (n +:+ s) = true.
Proof.
  revert n. induction p as [|x p IH]; intros n H; [done|].
  destruct n as [|y n]; [done|]. rewrite append_cons. simpl in *.
  apply andb_true_iff in H as [-> H]. by rewrite IH.
Qed.

Lemma pathOption_extends cmd prefix entry :
  startsWith prefix entry.1 = true ->
  startsWith (cmd +:+ " " +:+ prefix) (pathOption cmd entry) = true.
Proof.
  intros H. unfold pathOption.
  destruct (isDirectory entry.2); rewrite !startsWith_app_l; [|done].
  by apply startsWith_app_r.
Qed.

End CompletionFacts.

(** X23: completion.  A blank input and an input of three words or more
    get no suggestion.  For one word the suggestions are the available
    commands that start with it, in the order of the list.  For two words
    of which the first, as typed, is one of the eight path commands, the
    suggestions are, for each entry of the current directory whose name
    starts with the second word, the first word, a space and the name,
    with a slash after the name of a directory; other first words get
    none.  Every suggestion starts with the words typed, joined by one
    space. *)
Theorem completion_extends_the_input entries input currentPath w :
  (forall kids, entries kids ≡ₚ map_to_list kids) ->
  let options := getAutocompleteOptions entries input currentPath w in
  let args := Js.splitWhitespace input in
  (Js.trim input = "" -> options = [])
  /\ ((3 <= length args)%nat -> options = [])
  /\ (Js.trim input <> "" -> forall word, args = [word] ->
      options = List.filter (Js.startsWith word) AVAILABLE_COMMANDS)
  /\ (forall cmd prefix, args = [cmd; prefix] ->
      (cmd ∉ pathCommands -> options = [])
      /\ (cmd ∈ pathCommands ->
          forall o,
            o ∈ options
            <-> exists d name node,
                  getNode (loadFileSystem w) currentPath = Some d
                  /\ child name d = Some node
                  /\ Js.startsWith prefix name = true
                  /\ o = pathOption cmd (name, node)))
  /\ (forall o, o ∈ options -> Js.startsWith (Js.join " " args) o = true).
Proof.
  intros Hent options args.
  assert (forall cmd, existsb (Js.eqb_str cmd) pathCommands = true <-> cmd ∈ pathCommands)
    as Hpc.
  { intros cmd. rewrite existsb_exists. split.
    - intros (x & Hin & E). apply JsFacts.eqb_str_true in E as ->.
      by apply list_elem_of_In.
    - intros Hin. exists cmd. split; [by apply list_elem_of_In|].
      by apply JsFacts.eqb_str_true. }
  assert (Js.trim input <> "" -> forall word, args = [word] ->
          options = List.filter (Js.startsWith word) AVAILABLE_COMMANDS) as Hone.
  { intros Hne word Hargs. unfold options, getAutocompleteOptions.
    apply JsFacts.truthy_true in Hne. rewrite Hne. cbn [negb]. fold args.
    by rewrite Hargs. }
  assert (forall cmd prefix, args = [cmd; prefix] ->
          Js.trim input <> ""
          /\ options
             = if existsb (Js.eqb_str cmd) pathCommands then
                 match getNode (loadFileSystem w) currentPath with
                 | None => []
                 | Some d =>
                     match children d with
                     | None => []
                     | Some kids =>
                         pathOption cmd
                           <$> List.filter (fun entry => Js.startsWith prefix entry.1)
                                 (entries kids)
                     end
                 end
               else []) as Htwo.
  { intros cmd prefix Hargs.
    assert (Js.trim input <> "") as Hne.
    { intros E. unfold args, Js.splitWhitespace in Hargs.
      by rewrite (ParseFacts.words_blank _ (ParseFacts.trim_empty _ E)) in Hargs. }
    split; [done|]. unfold options, getAutocompleteOptions.
    apply JsFacts.truthy_true in Hne. rewrite Hne. cbn [negb]. fold args.
    rewrite Hargs. cbn [length bool_decide andb lookup list_lookup default
                        from_option id].
    rewrite bool_decide_eq_false_2 by done.
    rewrite bool_decide_eq_true_2 by done. by rewrite andb_true_r. }
  split_and!.
  - intros E. unfold options, getAutocompleteOptions.
    apply JsFacts.truthy_false in E. by rewrite E.
  - intros Hlen. unfold options, getAutocompleteOptions. fold args.
    destruct (negb _); [done|].
    rewrite bool_decide_eq_false_2 by lia.
    rewrite (bool_decide_eq_false_2 (length args = 2%nat)) by lia.
    by rewrite andb_false_r.
  - exact Hone.
  - intros cmd prefix Hargs. destruct (Htwo cmd prefix Hargs) as [_ Hopt].
    split.
    + intros Hno. rewrite Hopt.
      destruct (existsb _ _) eqn:E; [|done]. by apply Hpc in E.
    + intros Hin o. rewrite Hopt. apply Hpc in Hin as ->.
      split.
      * destruct (getNode (loadFileSystem w) currentPath) as [d|]; [|by intros ?%elem_of_nil].
        destruct (children d) as [kids|] eqn:Hk; [|by intros ?%elem_of_nil].
        intros ([name node] & -> & Hf)%list_elem_of_fmap.
        apply list_elem_of_In, filter_In in Hf as [Hf Hs].
        apply list_elem_of_In in Hf. rewrite Hent in Hf.
        apply elem_of_map_to_list in Hf. exists d, name, node.
        unfold child. rewrite Hk. by split_and!.
      * intros (d & name & node & -> & Hc & Hs & ->). unfold child in Hc.
        destruct (children d) as [kids|]; [|done].
        apply list_elem_of_fmap. exists (name, node). split; [done|].
        apply list_elem_of_In, filter_In. split; [|done].
        apply list_elem_of_In. rewrite Hent. by apply elem_of_map_to_list.
  - intros o Ho.
    destruct args as [|word [|prefix [|third rest]]] eqn:Hargs.
    + unfold args, Js.splitWhitespace in Hargs. by destruct (String.words input).
    + destruct (decide (Js.trim input = "")) as [E|Hne].
      * unfold options, getAutocompleteOptions in Ho.
        apply JsFacts.truthy_false in E. rewrite E in Ho. by apply elem_of_nil in Ho.
      * rewrite (Hone Hne word eq_refl) in Ho.
        by apply list_elem_of_In, filter_In in Ho as [_ Ho].
    + destruct (Htwo word prefix eq_refl) as [_ Hopt]. rewrite Hopt in Ho.
      destruct (existsb _ _); [|by apply elem_of_nil in Ho].
      destruct (getNode _ _) as [d|]; [|by apply elem_of_nil in Ho].
      destruct (children d) as [kids|]; [|by apply elem_of_nil in Ho].
      apply list_elem_of_fmap in Ho as (entry & -> & Hf).
      apply list_elem_of_In, filter_In in Hf as [_ Hs].
      by apply CompletionFacts.pathOption_extends.
    + unfold options, getAutocompleteOptions in Ho. fold args in Ho.
      rewrite Hargs in Ho. destruct (negb _); [by apply elem_of_nil in Ho|].
      cbn [length] in Ho.
      rewrite bool_decide_eq_false_2 in Ho by lia.
      rewrite (bool_decide_eq_false_2 (_ = 2%nat)) in Ho by lia.
      rewrite andb_false_r in Ho. by apply elem_of_nil in Ho.
Qed.

Lemma completion_extends_the_input_witness :
  let w := mkWorld None (defaultFileSystem 0) in
  getAutocompleteOptions map_to_list "  " "/" w = []
  /\ getAutocompleteOptions map_to_list "ch" "/" w = ["chmod"]
  /\ "cd etc/" ∈ getAutocompleteOptions map_to_list "cd e" "/" w
  /\ getAutocompleteOptions map_to_list "CD e" "/" w = [].
Proof.
  intros w.
  destruct (completion_extends_the_input map_to_list "  " "/" w) as (Hblank & _);
    [done|].
  destruct (completion_extends_the_input map_to_list "ch" "/" w)
    as (_ & _ & Hone & _); [done|].
  destruct (completion_extends_the_input map_to_list "cd e" "/" w)
    as (_ & _ & _ & Htwo & _); [done|].
  destruct (completion_extends_the_input map_to_list "CD e" "/" w)
    as (_ & _ & _ & Hno & _); [done|].
  split_and!.
  - by apply Hblank.
  - by rewrite (Hone ltac:(discriminate) "ch" eq_refl).
  - destruct (Htwo "cd" "e" eq_refl) as [_ Hyes].
    apply Hyes; [by apply list_elem_of_In; simpl; tauto|].
    destruct (getNode (loadFileSystem w) "/") as [d|] eqn:Hd; [|by vm_compute in Hd].
    destruct (child "etc" d) as [n|] eqn:Hn;
      [|by vm_compute in Hd; injection Hd as <-; vm_compute in Hn].
    exists d, "etc", n. split_and!; [done|done|done|].
    vm_compute in Hd. injection Hd as <-. vm_compute in Hn. by injection Hn as <-.
  - destruct (Hno "CD" "e" eq_refl) as [Hnone _]. apply Hnone.
    intros Hin. apply list_elem_of_In in Hin. simpl in Hin.
    repeat destruct Hin as [Hin|Hin]; try discriminate. done.
Defined.


